(** * A vanilla recurrent network written with NumPy, and its text generator

    Shallow embedding of [softmax], [forward], [backward] and [train_step]
    of the notebook Q1 and of [predict] of the notebook Q3, together with
    the properties their description states about them.

    - NumPy arrays are two-dimensional: a number of columns and the rows of
      entries.  Operations that NumPy refuses on mismatching shapes return
      [Raise ValueError]; size-one axes are broadcast as NumPy does.
    - Entries live in an arbitrary carrier with the operations the code
      uses (class [Scalar]).  Properties that only depend on the structure
      of the computation are proved for every carrier; the update rule and
      the loss are related to the formulas of the description over the
      real numbers, the arithmetic that float64 approximates; what depends
      on overflow, on NaN or on rounding is proved for float64 entries
      ([float64]).
    - The functions are first written with explicit state passing: a loop
      threads the variables its body assigns.  [forward] and [backward] are
      then written a second time over a heap of objects, where arrays are
      passed by reference and updated in place; the heap programs are
      shown to return what the functions return.
    - The trained network and the sampler of [predict] are parameters. *)

From Stdlib Require Import ZArith List Lia Reals Lra Ascii.
From stdpp Require Import base list gmap strings sorting.

(** ** Python exceptions and the error monad *)

Inductive exn : Type :=
| ValueError
| IndexError
| KeyError
| ZeroDivisionError
| RuntimeError
| TypeError.

Inductive result (X : Type) : Type :=
| Ok (x : X)
| Raise (e : exn).

Arguments Ok {X} x.
Arguments Raise {X} e.

#[global] Instance result_ret : MRet result := fun X x => Ok x.
#[global] Instance result_bind : MBind result := fun X Y f m =>
  match m with
  | Ok x => f x
  | Raise e => Raise e
  end.

(** A Python [for] loop whose body may raise: the loop state is threaded
    through the iterations and the first exception ends the loop. *)
Fixpoint for_loop {S I : Type} (body : S -> I -> result S) (its : list I) (s : S)
  : result S :=
  match its with
  | [] => Ok s
  | i :: its' => s' ← body s i; for_loop body its' s'
  end.

(** [range(n)] *)
Definition range (n : nat) : list nat := seq 0 n.

(** [l[i]] for a Python list or the first axis of an array, [i] a loop
    counter. *)
Definition py_get {X : Type} (l : list X) (i : nat) : result X :=
  match l !! i with
  | Some x => Ok x
  | None => Raise IndexError
  end.

(** Python's index normalisation for an integer index into an axis of
    length [n]: negative indices count from the end. *)
Definition py_index (n : nat) (i : Z) : result nat :=
  if ((0 <=? i) && (i <? Z.of_nat n))%Z then Ok (Z.to_nat i)
  else if ((- Z.of_nat n <=? i) && (i <? 0))%Z then Ok (Z.to_nat (Z.of_nat n + i))
  else Raise IndexError.

(** [d[k]] for a dictionary. *)
Definition dict_get {K V : Type} `{Countable K} (d : gmap K V) (k : K) : result V :=
  match d !! k with
  | Some v => Ok v
  | None => Raise KeyError
  end.

(** ** Scalars *)

Class Scalar (A : Type) : Type := {
  szero : A;
  sone : A;
  sadd : A -> A -> A;
  ssub : A -> A -> A;
  smul : A -> A -> A;
  sdiv : A -> A -> A;
  smax : A -> A -> A;
  stanh : A -> A;
  sexp : A -> A;
  slog : A -> A;
  seps : A;              (* the literal 1e-8 *)
  sofnat : nat -> A      (* a Python int used as a number *)
}.

(** ** NumPy arrays *)

Record ndarray (A : Type) : Type := NdArray {
  ncols : nat;
  rows : list (list A)
}.

Arguments NdArray {A} ncols rows.
Arguments ncols {A} _.
Arguments rows {A} _.

Definition nrows {A} (a : ndarray A) : nat := length (rows a).

(** The rows of an array have the length its shape says. *)
Definition wf {A} (a : ndarray A) : Prop :=
  Forall (fun r => length r = ncols a) (rows a).

Definition has_shape {A} (a : ndarray A) (r c : nat) : Prop :=
  nrows a = r /\ ncols a = c /\ wf a.

Definition entries {A} (a : ndarray A) : list A := concat (rows a).

Section NumPy.
Context {A : Type} `{Scalar A}.

Definition ssum (l : list A) : A := foldr sadd szero l.

(** [np.zeros((r, c))] *)
Definition np_zeros (r c : nat) : ndarray A :=
  NdArray c (replicate r (replicate c szero)).

(** [np.zeros_like(a)] *)
Definition np_zeros_like (a : ndarray A) : ndarray A :=
  np_zeros (nrows a) (ncols a).

(** Column [j] of an array. *)
Definition column (a : ndarray A) (j : nat) : list A :=
  map (fun r => nth j r szero) (rows a).

(** [a.T] *)
Definition np_T (a : ndarray A) : ndarray A :=
  NdArray (nrows a) (map (column a) (range (ncols a))).

Definition dotp (u v : list A) : A := ssum (zip_with smul u v).

(** [np.dot(a, b)] on two-dimensional arrays *)
Definition np_dot (a b : ndarray A) : result (ndarray A) :=
  if ncols a =? nrows b
  then Ok (NdArray (ncols b)
             (map (fun r => map (dotp r) (rows (np_T b))) (rows a)))
  else Raise ValueError.

(** Broadcasting: the common length of two axes, if any. *)
Definition bdim (m n : nat) : option nat :=
  if m =? n then Some m
  else if m =? 1 then Some n
  else if n =? 1 then Some m
  else None.

(** The rows of [a] stretched to shape [(r, c)]; only size-one axes are
    stretched. *)
Definition stretch (a : ndarray A) (r c : nat) : list (list A) :=
  let rs := if ncols a =? c then rows a
            else map (fun row => replicate c (hd szero row)) (rows a) in
  if nrows a =? r then rs else replicate r (hd [] rs).

(** Can [a] be broadcast to shape [(r, c)]? *)
Definition fits (a : ndarray A) (r c : nat) : bool :=
  ((nrows a =? r) || (nrows a =? 1)) && ((ncols a =? c) || (ncols a =? 1)).

(** An elementwise binary operator, [a + b], [a - b], [a * b]. *)
Definition ewise (f : A -> A -> A) (a b : ndarray A) : result (ndarray A) :=
  match bdim (nrows a) (nrows b), bdim (ncols a) (ncols b) with
  | Some r, Some c =>
      Ok (NdArray c (zip_with (zip_with f) (stretch a r c) (stretch b r c)))
  | _, _ => Raise ValueError
  end.

Definition np_add := ewise sadd.
Definition np_sub := ewise ssub.
Definition np_mul := ewise smul.

(** [a += b]: the result keeps the shape of [a]. *)
Definition np_iadd (a b : ndarray A) : result (ndarray A) :=
  if fits b (nrows a) (ncols a)
  then Ok (NdArray (ncols a)
             (zip_with (zip_with sadd) (rows a) (stretch b (nrows a) (ncols a))))
  else Raise ValueError.

(** A unary function applied to every entry, [np.tanh(a)], [np.exp(a)],
    and an operator with a scalar, [1 - a], [a - m], [a / s], [lr * a]. *)
Definition np_map (f : A -> A) (a : ndarray A) : ndarray A :=
  NdArray (ncols a) (map (map f) (rows a)).

(** [np.max(a)]; NumPy refuses an array without entries. *)
Definition np_max (a : ndarray A) : result A :=
  match entries a with
  | [] => Raise ValueError
  | x :: l => Ok (foldl smax x l)
  end.

(** [np.sum(a)] *)
Definition np_sum (a : ndarray A) : A := ssum (entries a).

(** [a[i] = b] on the first axis of a three-dimensional array kept as the
    list of its slices of shape [(r, c)]. *)
Definition np_setitem (r c : nat) (l : list (ndarray A)) (i : nat) (b : ndarray A)
  : result (list (ndarray A)) :=
  if decide (i < length l)
  then if fits b r c then Ok (<[i := NdArray c (stretch b r c)]> l)
       else Raise ValueError
  else Raise IndexError.

(** [a[k] = x] for a scalar [x]: the whole row [k] is set. *)
Definition np_setrow (a : ndarray A) (k : Z) (x : A) : result (ndarray A) :=
  i ← py_index (nrows a) k;
  Ok (NdArray (ncols a) (<[i := replicate (ncols a) x]> (rows a))).

(** [a[k, j]] *)
Definition np_item (a : ndarray A) (k : Z) (j : nat) : result A :=
  i ← py_index (nrows a) k;
  r ← py_get (rows a) i;
  if decide (j < ncols a) then py_get r j else Raise IndexError.

End NumPy.

(** ** The network of notebook Q1 *)

Section RNN.
Context {A : Type} `{Scalar A}.

(** The module-level [hidden_size], read by [forward] when it allocates the
    trajectory. *)
Variable hidden_size : nat.

(** [softmax(x)] *)
Definition softmax (x : ndarray A) : result (ndarray A) :=
  m ← np_max x;
  let exp_x := np_map sexp (np_map (fun v => ssub v m) x) in
  Ok (np_map (fun v => sdiv v (np_sum exp_x)) exp_x).

(** One iteration of the loop of [forward]; the loop state is the list
    [outputs] and the array [hidden_states]. *)
Definition forward_body (inputs : list (ndarray A)) (U W V b c : ndarray A)
    (st : list (ndarray A) * list (ndarray A)) (t : nat)
  : result (list (ndarray A) * list (ndarray A)) :=
  let '(outputs, hidden_states) := st in
  x ← py_get inputs t;
  ux ← np_dot U x;
  h ← py_get hidden_states t;
  wh ← np_dot W h;
  s ← np_add ux wh;
  s ← np_add s b;
  hidden_states ← np_setitem hidden_size 1 hidden_states (t + 1) (np_map stanh s);
  h' ← py_get hidden_states (t + 1);
  vh ← np_dot V h';
  z ← np_add vh c;
  output ← softmax z;
  Ok (outputs ++ [output], hidden_states).

(** [forward(inputs, U, W, V, b, c)] *)
Definition forward (inputs : list (ndarray A)) (U W V b c : ndarray A)
  : result (list (ndarray A) * list (ndarray A)) :=
  let T := length inputs in
  let hidden_states := replicate (T + 1) (np_zeros hidden_size 1) in
  let outputs := [] in
  hidden_states ← np_setitem hidden_size 1 hidden_states 0 (np_zeros hidden_size 1);
  for_loop (forward_body inputs U W V b c) (range T) (outputs, hidden_states).

(** The accumulators of [backward]: [dU], [dW], [dV], [db], [dc] and
    [dh_next]. *)
Record grads : Type := Grads {
  g_dU : ndarray A;
  g_dW : ndarray A;
  g_dV : ndarray A;
  g_db : ndarray A;
  g_dc : ndarray A;
  g_dh_next : ndarray A
}.

(** One iteration of the loop of [backward]. *)
Definition backward_body (inputs outputs hidden_states : list (ndarray A))
    (targets : list Z) (U W V b c : ndarray A) (g : grads) (t : nat)
  : result grads :=
  o ← py_get outputs t;
  let target := np_zeros_like o in
  k ← py_get targets t;
  target ← np_setrow target k sone;
  o ← py_get outputs t;
  dy ← np_sub o target;
  h' ← py_get hidden_states (t + 1);
  p ← np_dot dy (np_T h');
  dV ← np_iadd (g_dV g) p;
  dc ← np_iadd (g_dc g) dy;
  vy ← np_dot (np_T V) dy;
  dh ← np_add vy (g_dh_next g);
  h' ← py_get hidden_states (t + 1);
  dtanh ← np_mul (np_map (ssub sone) (np_map (fun v => smul v v) h')) dh;
  db ← np_iadd (g_db g) dtanh;
  x ← py_get inputs t;
  p ← np_dot dtanh (np_T x);
  dU ← np_iadd (g_dU g) p;
  h ← py_get hidden_states t;
  p ← np_dot dtanh (np_T h);
  dW ← np_iadd (g_dW g) p;
  dh_next ← np_dot (np_T W) dtanh;
  Ok (Grads dU dW dV db dc dh_next).

(** [backward(inputs, outputs, hidden_states, targets, U, W, V, b, c)] *)
Definition backward (inputs outputs hidden_states : list (ndarray A))
    (targets : list Z) (U W V b c : ndarray A)
  : result (ndarray A * ndarray A * ndarray A * ndarray A * ndarray A) :=
  let T := length inputs in
  let dU := np_zeros_like U in
  let dW := np_zeros_like W in
  let dV := np_zeros_like V in
  let db := np_zeros_like b in
  let dc := np_zeros_like c in
  h0 ← py_get hidden_states 0;
  let dh_next := np_zeros_like h0 in
  g ← for_loop (backward_body inputs outputs hidden_states targets U W V b c)
        (reverse (range T)) (Grads dU dW dV db dc dh_next);
  Ok (g_dU g, g_dW g, g_dV g, g_db g, g_dc g).

(** One iteration of the loss loop of [train_step]. *)
Definition loss_body (outputs : list (ndarray A)) (targets : list Z)
    (loss : A) (t : nat) : result A :=
  o ← py_get outputs t;
  k ← py_get targets t;
  correct_prob ← np_item o k 0;
  Ok (ssub loss (slog (sadd correct_prob seps))).

(** [train_step(inputs, targets, U, W, V, b, c, learning_rate)] *)
Definition train_step (inputs : list (ndarray A)) (targets : list Z)
    (U W V b c : ndarray A) (learning_rate : A)
  : result (ndarray A * ndarray A * ndarray A * ndarray A * ndarray A * A) :=
  '(outputs, hidden_states) ← forward inputs U W V b c;
  '(dU, dW, dV, db, dc) ← backward inputs outputs hidden_states targets U W V b c;
  U_new ← np_sub U (np_map (smul learning_rate) dU);
  W_new ← np_sub W (np_map (smul learning_rate) dW);
  V_new ← np_sub V (np_map (smul learning_rate) dV);
  b_new ← np_sub b (np_map (smul learning_rate) db);
  c_new ← np_sub c (np_map (smul learning_rate) dc);
  loss ← for_loop (loss_body outputs targets) (range (length targets)) szero;
  (* [loss / len(targets)]: with no target, the integer 0 is divided by 0 *)
  if decide (length targets = 0) then Raise ZeroDivisionError
  else Ok (U_new, W_new, V_new, b_new, c_new, sdiv loss (sofnat (length targets))).

End RNN.

(** ** Real arithmetic *)

#[global] Instance R_scalar : Scalar R := {
  szero := 0%R;
  sone := 1%R;
  sadd := Rplus;
  ssub := Rminus;
  smul := Rmult;
  sdiv := Rdiv;
  smax := Rmax;
  stanh := tanh;
  sexp := exp;
  slog := ln;
  seps := 1e-8%R;
  sofnat := INR
}.

(** ** The mathematics the description refers to

    Vectors are lists of entries and matrices lists of rows; the
    definitions below follow the formulas of the description, not the
    code. *)

Section Formulas.
Context {A : Type} `{Scalar A}.

(** A vector as an array of shape [(n, 1)], and back. *)
Definition col (v : list A) : ndarray A := NdArray 1 (map (fun x => [x]) v).
Definition vec_of (a : ndarray A) : list A := column a 0.

Definition vadd (u v : list A) : list A := zip_with sadd u v.
Definition vsub (u v : list A) : list A := zip_with ssub u v.
Definition vmul (u v : list A) : list A := zip_with smul u v.

(** Matrix-vector product [M·v], and [Mᵀ·v] for a matrix given as an array. *)
Definition mat_vec (M : list (list A)) (v : list A) : list A :=
  map (fun r => dotp r v) M.
Definition matT_vec (M : ndarray A) (v : list A) : list A :=
  map (fun j => dotp (column M j) v) (range (ncols M)).

(** Outer product [u ⊗ v]. *)
Definition outer (u v : list A) : list (list A) :=
  map (fun x => map (smul x) v) u.

Definition madd (M N : list (list A)) : list (list A) :=
  zip_with (zip_with sadd) M N.

(** Sums of vectors of length [n] and of matrices of shape [(r, c)]. *)
Definition vsum (n : nat) (l : list (list A)) : list A :=
  foldr vadd (replicate n szero) l.
Definition msum (r c : nat) (l : list (list (list A))) : list (list A) :=
  foldr madd (replicate r (replicate c szero)) l.

(** Softmax: subtract the maximum entry, exponentiate, divide by the sum
    of the exponentials. *)
Definition max_entry (z : list A) : A :=
  match z with
  | [] => szero
  | x :: l => foldl smax x l
  end.
Definition softmax_vec (z : list A) : list A :=
  let e := map (fun v => sexp (ssub v (max_entry z))) z in
  map (fun v => sdiv v (ssum e)) e.

(** [tanh(U·x + W·h + b)] and [softmax(V·h + c)] *)
Definition cell (U W b : ndarray A) (x h : list A) : list A :=
  map stanh (vadd (vadd (mat_vec (rows U) x) (mat_vec (rows W) h)) (vec_of b)).
Definition readout (V c : ndarray A) (h : list A) : list A :=
  softmax_vec (vadd (mat_vec (rows V) h) (vec_of c)).

(** The hidden states after each input, starting from [h]. *)
Fixpoint hidden_from (U W b : ndarray A) (h : list A) (xs : list (list A))
  : list (list A) :=
  match xs with
  | [] => []
  | x :: xs' => let h' := cell U W b x h in h' :: hidden_from U W b h' xs'
  end.

Definition trajectory (n : nat) (U W b : ndarray A) (xs : list (list A))
  : list (list A) :=
  replicate n szero :: hidden_from U W b (replicate n szero) xs.

(** The outputs of a sequence: the read-out of every state but the first. *)
Definition outputs_of (n : nat) (U W V b c : ndarray A) (xs : list (list A))
  : list (list A) :=
  map (readout V c) (hidden_from U W b (replicate n szero) xs).

(** One-hot vector of length [o] for class [k]. *)
Definition one_hot (o : nat) (k : Z) : list A :=
  <[Z.to_nat k := sone]> (replicate o szero).

(** Back-propagation through time.  [dy_of] is the output-layer error of a
    step, [dtanh_of] the error before the activation; [deltas] runs over
    the steps from a time [t] on, each given by its output error and the
    hidden state it produced, and yields the pre-activation errors of
    these steps: the error of a step uses that of the step after it
    ([dh_next_of], zero after the last step). *)
Definition dy_of (o : nat) (out : list A) (k : Z) : list A :=
  vsub out (one_hot o k).

Definition dtanh_of (h' dh : list A) : list A :=
  vmul (map (fun v => ssub sone (smul v v)) h') dh.

Definition dh_next_of (n : nat) (W : ndarray A) (ds : list (list A)) : list A :=
  match ds with
  | [] => replicate n szero
  | d :: _ => matT_vec W d
  end.

Fixpoint deltas (n : nat) (W V : ndarray A) (steps : list (list A * list A))
  : list (list A) :=
  match steps with
  | [] => []
  | (dy, h') :: rest =>
      let ds := deltas n W V rest in
      dtanh_of h' (vadd (matT_vec V dy) (dh_next_of n W ds)) :: ds
  end.

(** The output errors of all steps and the pre-activation errors of all
    steps, from the outputs, the targets and the trajectory. *)
Definition output_errors (o : nat) (outs : list (list A)) (targets : list Z)
  : list (list A) :=
  zip_with (dy_of o) outs targets.

Definition hidden_errors (n : nat) (W V : ndarray A) (dys hs : list (list A))
  : list (list A) :=
  deltas n W V (zip dys (tail hs)).

(** The gradients of the description: sums over the steps of the
    contributions [dtanh ⊗ input], [dtanh ⊗ previous state],
    [dy ⊗ state], [dtanh] and [dy]. *)
Definition bptt (n h o : nat) (W V : ndarray A) (xs outs hs : list (list A))
    (targets : list Z)
  : list (list A) * list (list A) * list (list A) * list A * list A :=
  let dys := output_errors o outs targets in
  let ds := hidden_errors h W V dys hs in
  (msum h n (zip_with outer ds xs),
   msum h h (zip_with outer ds hs),
   msum o h (zip_with outer dys (tail hs)),
   vsum h ds,
   vsum o dys).

(** Gradient descent on one tensor: [p - step_size * g], entry by entry. *)
Definition descend (step_size : A) (p g : ndarray A) : ndarray A :=
  NdArray (ncols p)
    (zip_with (zip_with (fun x y => ssub x (smul step_size y))) (rows p) (rows g)).

End Formulas.

(** The mean negative log-likelihood of the true classes,
    [-(1/T) * Σ_t log (outputs[t][targets[t]] + 1e-8)]. *)
Definition mean_nll (outs : list (list R)) (targets : list Z) : R :=
  (- (1 / INR (length targets))
   * ssum (zip_with (fun out k => ln (nth (Z.to_nat k) out 0 + 1e-8)) outs targets))%R.

(** ** The arrays as Python objects

    [forward] and [backward] receive references to the parameter arrays and
    update arrays in place ([hidden_states[t+1] = ...], [outputs.append],
    [target[k] = 1], [dV += ...]).  Here the arrays live in a heap of
    objects addressed by locations; every array created by the code is a
    fresh object and every in-place update writes the object it names.  The
    input sequence and the targets, which the code only reads, are passed
    by value. *)

Inductive obj (A : Type) : Type :=
| OArray (a : ndarray A)              (* a two-dimensional array *)
| OArray3 (l : list (ndarray A))      (* a three-dimensional array, by slices *)
| OList (l : list (ndarray A)).       (* a Python list of arrays *)

Arguments OArray {A} a.
Arguments OArray3 {A} l.
Arguments OList {A} l.

Abbreviation loc := nat (only parsing).

Module Heap.

Abbreviation heap A := (list (obj A)) (only parsing).

(** Computations that read and write the heap and may raise; the heap
    survives an exception. *)
Definition M (A X : Type) : Type := heap A -> result X * heap A.

Section Heap.
Context {A : Type}.

Definition ret {X : Type} (x : X) : M A X := fun σ => (Ok x, σ).

Definition bind {X Y : Type} (m : M A X) (k : X -> M A Y) : M A Y := fun σ =>
  match m σ with
  | (Ok x, σ') => k x σ'
  | (Raise e, σ') => (Raise e, σ')
  end.

Definition lift {X : Type} (r : result X) : M A X := fun σ => (r, σ).

(** A new object. *)
Definition alloc (o : obj A) : M A loc := fun σ => (Ok (length σ), σ ++ [o]).

(** Reading and writing an object; a location without object, which a
    Python reference never is, raises. *)
Definition load (l : loc) : M A (obj A) := fun σ =>
  match σ !! l with
  | Some o => (Ok o, σ)
  | None => (Raise RuntimeError, σ)
  end.

Definition store (l : loc) (o : obj A) : M A unit := fun σ =>
  if decide (l < length σ) then (Ok tt, <[l := o]> σ) else (Raise RuntimeError, σ).

End Heap.
End Heap.

Notation "x <- m ;; k" := (Heap.bind m (fun x => k))
  (at level 100, m at next level, right associativity).
Notation "m ;;; k" := (Heap.bind m (fun _ => k))
  (at level 100, right associativity).

Module HeapRNN.
Import Heap.
Section HeapRNN.
Context {A : Type} `{Scalar A}.
Variable hidden_size : nat.

Definition load_array (l : loc) : M A (ndarray A) :=
  o <- load l ;;
  match o with
  | OArray a => ret a
  | _ => lift (Raise TypeError)
  end.

(** [a[i]] and [a[i] = b] on a three-dimensional array object. *)
Definition getitem3 (l : loc) (i : nat) : M A (ndarray A) :=
  o <- load l ;;
  match o with
  | OArray3 s => lift (py_get s i)
  | _ => lift (Raise TypeError)
  end.

Definition setitem3 (r c : nat) (l : loc) (i : nat) (b : ndarray A) : M A unit :=
  o <- load l ;;
  match o with
  | OArray3 s => s' <- lift (np_setitem r c s i b) ;; store l (OArray3 s')
  | _ => lift (Raise TypeError)
  end.

(** [l[i]] and [l.append(x)] on a list object. *)
Definition getitem_list (l : loc) (i : nat) : M A (ndarray A) :=
  o <- load l ;;
  match o with
  | OList s => lift (py_get s i)
  | _ => lift (Raise TypeError)
  end.

Definition append (l : loc) (x : ndarray A) : M A unit :=
  o <- load l ;;
  match o with
  | OList s => store l (OList (s ++ [x]))
  | _ => lift (Raise TypeError)
  end.

(** [a[k] = x] and [a += b] on an array object. *)
Definition setrow (l : loc) (k : Z) (x : A) : M A unit :=
  a <- load_array l ;;
  a' <- lift (np_setrow a k x) ;;
  store l (OArray a').

Definition iadd (l : loc) (b : ndarray A) : M A unit :=
  a <- load_array l ;;
  a' <- lift (np_iadd a b) ;;
  store l (OArray a').

(** A [for] loop; the state holds the local variables that are rebound. *)
Fixpoint for_loop {S I : Type} (body : S -> I -> M A S) (its : list I) (s : S) : M A S :=
  match its with
  | [] => ret s
  | i :: its' => s' <- body s i ;; for_loop body its' s'
  end.

(** [forward]: the parameters are the objects at [pU], [pW], [pV], [pb],
    [pc]; the result are the locations of [outputs] and [hidden_states]. *)
Definition forward_body (inputs : list (ndarray A)) (pU pW pV pb pc : loc)
    (outputs hidden_states : loc) (_ : unit) (t : nat) : M A unit :=
  U <- load_array pU ;;
  x <- lift (py_get inputs t) ;;
  ux <- lift (np_dot U x) ;;
  W <- load_array pW ;;
  h <- getitem3 hidden_states t ;;
  wh <- lift (np_dot W h) ;;
  s <- lift (np_add ux wh) ;;
  b <- load_array pb ;;
  s <- lift (np_add s b) ;;
  setitem3 hidden_size 1 hidden_states (t + 1) (np_map stanh s) ;;;
  V <- load_array pV ;;
  h' <- getitem3 hidden_states (t + 1) ;;
  vh <- lift (np_dot V h') ;;
  c <- load_array pc ;;
  z <- lift (np_add vh c) ;;
  output <- lift (softmax z) ;;
  append outputs output.

Definition forward (inputs : list (ndarray A)) (pU pW pV pb pc : loc)
  : M A (loc * loc) :=
  let T := length inputs in
  hidden_states <- alloc (OArray3 (replicate (T + 1) (np_zeros hidden_size 1))) ;;
  outputs <- alloc (OList []) ;;
  setitem3 hidden_size 1 hidden_states 0 (np_zeros hidden_size 1) ;;;
  for_loop (forward_body inputs pU pW pV pb pc outputs hidden_states) (range T) tt ;;;
  ret (outputs, hidden_states).

(** [backward]: [outputs] and [hidden_states] are the objects [forward]
    made; the loop state is [dh_next], which is rebound, not updated; the
    result are the locations of the five gradients. *)
Definition backward_body (inputs : list (ndarray A)) (outputs hidden_states : loc)
    (targets : list Z) (pU pW pV pb pc : loc) (dU dW dV db dc : loc)
    (dh_next : ndarray A) (t : nat) : M A (ndarray A) :=
  o <- getitem_list outputs t ;;
  target <- alloc (OArray (np_zeros_like o)) ;;
  k <- lift (py_get targets t) ;;
  setrow target k sone ;;;
  o <- getitem_list outputs t ;;
  tg <- load_array target ;;
  dy <- lift (np_sub o tg) ;;
  h' <- getitem3 hidden_states (t + 1) ;;
  p <- lift (np_dot dy (np_T h')) ;;
  iadd dV p ;;;
  iadd dc dy ;;;
  V <- load_array pV ;;
  vy <- lift (np_dot (np_T V) dy) ;;
  dh <- lift (np_add vy dh_next) ;;
  h' <- getitem3 hidden_states (t + 1) ;;
  dtanh <- lift (np_mul (np_map (ssub sone) (np_map (fun v => smul v v) h')) dh) ;;
  iadd db dtanh ;;;
  x <- lift (py_get inputs t) ;;
  p <- lift (np_dot dtanh (np_T x)) ;;
  iadd dU p ;;;
  h <- getitem3 hidden_states t ;;
  p <- lift (np_dot dtanh (np_T h)) ;;
  iadd dW p ;;;
  W <- load_array pW ;;
  lift (np_dot (np_T W) dtanh).

Definition backward (inputs : list (ndarray A)) (outputs hidden_states : loc)
    (targets : list Z) (pU pW pV pb pc : loc)
  : M A (loc * loc * loc * loc * loc) :=
  let T := length inputs in
  U <- load_array pU ;;
  dU <- alloc (OArray (np_zeros_like U)) ;;
  W <- load_array pW ;;
  dW <- alloc (OArray (np_zeros_like W)) ;;
  V <- load_array pV ;;
  dV <- alloc (OArray (np_zeros_like V)) ;;
  b <- load_array pb ;;
  db <- alloc (OArray (np_zeros_like b)) ;;
  c <- load_array pc ;;
  dc <- alloc (OArray (np_zeros_like c)) ;;
  h0 <- getitem3 hidden_states 0 ;;
  for_loop (backward_body inputs outputs hidden_states targets pU pW pV pb pc
              dU dW dV db dc)
    (reverse (range T)) (np_zeros_like h0) ;;;
  ret (dU, dW, dV, db, dc).

End HeapRNN.
End HeapRNN.

(** ** The generator of notebook Q3

    [predict] runs a trained network one character at a time.  The network
    ([model], with its initial state), the two dictionaries between
    characters and indices and the sampler [torch.multinomial], which draws
    from the generator of random numbers or raises, are parameters. *)

Section Generator.
Context {A : Type} `{Scalar A}.
Context {char : Type} `{Countable char}.
Variable hidden : Type.
Variable model : nat -> hidden -> list A * hidden.
Variable init_hidden : hidden.
Variable char_to_index : gmap char nat.
Variable index_to_char : gmap nat char.
Variable rng : Type.
Variable multinomial : list A -> rng -> result (nat * rng).

(** One iteration of the loop of [predict]; the loop state is
    [generated_text], [input_eval], [hidden] and the random generator. *)
Definition predict_body (temperature : A)
    (st : list char * nat * hidden * rng) (_ : nat)
  : result (list char * nat * hidden * rng) :=
  let '(generated_text, input_eval, hidden, g) := st in
  let '(outputs, hidden) := model input_eval hidden in
  let output_logits := map (fun v => sdiv v temperature) outputs in
  let probabilities := softmax_vec output_logits in
  '(predicted_index, g) ← multinomial probabilities g;
  predicted_char ← dict_get index_to_char predicted_index;
  Ok (generated_text ++ [predicted_char], predicted_index, hidden, g).

(** [predict(model, start_char, predict_len, temperature)]; the result is
    the text, as the list of its characters, and the state the generator of
    random numbers is left in. *)
Definition predict (start_char : char) (predict_len : Z) (temperature : A) (g : rng)
  : result (list char * rng) :=
  let generated_text := [start_char] in
  input_eval ← dict_get char_to_index start_char;
  st ← for_loop (predict_body temperature) (range (Z.to_nat predict_len))
         (generated_text, input_eval, init_hidden, g);
  Ok (st.1.1.1, st.2).

End Generator.

(** A sampler that counts its calls next to the state of the generator of
    random numbers. *)
Definition counted {A rng : Type} (multinomial : list A -> rng -> result (nat * rng))
    (p : list A) (gn : rng * nat) : result (nat * (rng * nat)) :=
  '(i, g') ← multinomial p gn.1;
  Ok (i, (g', S gn.2)).

(** A sampler that is given a number of calls and refuses a call beyond
    them. *)
Definition budgeted {A rng : Type} (multinomial : list A -> rng -> result (nat * rng))
    (p : list A) (gn : rng * nat) : result (nat * (rng * nat)) :=
  match gn.2 with
  | 0 => Raise RuntimeError
  | S n => '(i, g') ← multinomial p gn.1; Ok (i, (g', n))
  end.

(** ** Frames

    [agree n σ σ'] says that the heap [σ'] extends [σ] and holds the same
    objects at the locations below [n]; a computation is [safe n] when it
    keeps every heap of at least [n] objects in agreement, its results
    satisfying [Φ]. *)

Definition agree {A : Type} (n : nat) (σ σ' : Heap.heap A) : Prop :=
  length σ <= length σ' /\ forall l, l < n -> σ' !! l = σ !! l.

Definition safe {A X : Type} (n : nat) (m : Heap.M A X) (Φ : X -> Prop) : Prop :=
  forall σ, n <= length σ ->
    agree n σ (m σ).2 /\ forall x, (m σ).1 = Ok x -> Φ x.

(** ** Small instances

    A network with one input, one hidden unit and two classes, all weights
    and biases zero, and a generator over the one-letter vocabulary [a],
    whose sampler can only draw the index 0. *)

Module Toy.

Definition U : ndarray R := np_zeros 1 1.
Definition W : ndarray R := np_zeros 1 1.
Definition V : ndarray R := np_zeros 2 1.
Definition b : ndarray R := np_zeros 1 1.
Definition c : ndarray R := np_zeros 2 1.
Definition inputs : list (ndarray R) := [col [1%R]].
Definition targets : list Z := [0%Z].

(** A heap that holds the five parameters at the locations 0 to 4. *)
Definition params : list (obj R) := [OArray U; OArray W; OArray V; OArray b; OArray c].

Definition model (i : nat) (s : unit) : list R * unit := ([0%R], s).
Definition char_to_index : gmap ascii nat := {[ "a"%char := 0 ]}.
Definition index_to_char : gmap nat ascii := {[ 0 := "a"%char ]}.
Definition multinomial (p : list R) (g : unit) : result (nat * unit) := Ok (0, g).

Definition predict : ascii -> Z -> R -> unit -> result (list ascii * unit) :=
  predict unit model tt char_to_index index_to_char unit multinomial.

End Toy.

(** ** float64 entries

    The arrays of notebook Q1 hold float64 numbers: NaN, the two
    infinities and the finite numbers.  An operation on finite numbers
    returns the exact result rounded, and an infinity when the rounded
    result leaves the range of the finite numbers; an operation NumPy
    cannot give a value returns NaN, and NaN spreads through every
    operation, [np.max] included.  The rounding [rnd] and the functions
    [np.exp], [np.tanh] and [np.log] of NumPy's library are parameters
    ([float_arith]); [ieee] states what is used of them: rounding is
    monotone, keeps 0 and 1 and is off by at most 2^-53 of the result (or
    by 2^-1075 next to zero), and the library functions have the special
    values and the ranges of the C library.  The sign of a zero is not
    kept: a division by zero gives the infinity it gives for +0. *)

Inductive float64 : Type :=
| Finite (x : R)
| PInf
| NInf
| NaN.

Class float_arith : Type := FloatArith {
  rnd : R -> R;
  np_exp : float64 -> float64;
  np_tanh : float64 -> float64;
  np_log : float64 -> float64
}.

(** The first power of two beyond the finite numbers, the relative error
    of rounding and its absolute error next to zero. *)
Definition huge : R := 2 ^ 1024.
Definition unit_roundoff : R := / 2 ^ 53.
Definition tiny : R := / 2 ^ 1075.

Definition overflow (x : R) : float64 :=
  if Rle_dec huge x then PInf
  else if Rle_dec x (- huge) then NInf
  else Finite x.

Definition is_nan (a : float64) : bool :=
  match a with NaN => true | _ => false end.
Definition is_pinf (a : float64) : bool :=
  match a with PInf => true | _ => false end.
Definition is_ninf (a : float64) : bool :=
  match a with NInf => true | _ => false end.

Definition fopp (a : float64) : float64 :=
  match a with
  | Finite x => Finite (- x)
  | PInf => NInf
  | NInf => PInf
  | NaN => NaN
  end.

(** The order of the entries that are not NaN. *)
Definition fle (a b : float64) : Prop :=
  match a, b with
  | NaN, _ | _, NaN => False
  | NInf, _ | _, PInf => True
  | Finite x, Finite y => (x <= y)%R
  | _, _ => False
  end.

(** An infinity [i] times, or divided by, a finite number of the sign of
    [x]. *)
Definition signed (x : R) (i : float64) : float64 :=
  if Rle_dec 0 x then i else fopp i.

Section Float64.
Context {fa : float_arith}.

Definition fadd (a b : float64) : float64 :=
  match a, b with
  | NaN, _ | _, NaN => NaN
  | Finite x, Finite y => overflow (rnd (x + y))
  | PInf, NInf | NInf, PInf => NaN
  | PInf, _ | _, PInf => PInf
  | NInf, _ | _, NInf => NInf
  end.

Definition fsub (a b : float64) : float64 := fadd a (fopp b).

Definition fmul (a b : float64) : float64 :=
  match a, b with
  | NaN, _ | _, NaN => NaN
  | Finite x, Finite y => overflow (rnd (x * y))
  | Finite x, i | i, Finite x =>
      if Req_dec_T x 0 then NaN else signed x i
  | PInf, PInf | NInf, NInf => PInf
  | PInf, NInf | NInf, PInf => NInf
  end.

Definition fdiv (a b : float64) : float64 :=
  match a, b with
  | NaN, _ | _, NaN => NaN
  | Finite x, Finite y =>
      if Req_dec_T y 0
      then if Req_dec_T x 0 then NaN else signed x PInf
      else overflow (rnd (x / y))
  | Finite _, _ => Finite 0
  | i, Finite y => signed y i
  | _, _ => NaN
  end.

(** [np.max] of two entries. *)
Definition fmax (a b : float64) : float64 :=
  match a, b with
  | NaN, _ | _, NaN => NaN
  | PInf, _ | _, PInf => PInf
  | NInf, x | x, NInf => x
  | Finite x, Finite y => Finite (Rmax x y)
  end.

#[global] Instance float64_scalar : Scalar float64 := {
  szero := Finite 0;
  sone := Finite 1;
  sadd := fadd;
  ssub := fsub;
  smul := fmul;
  sdiv := fdiv;
  smax := fmax;
  stanh := np_tanh;
  sexp := np_exp;
  slog := np_log;
  seps := Finite (rnd 1e-8);
  sofnat := fun n => overflow (rnd (INR n))
}.

(** What the properties below use of the rounding and of the library. *)
Record ieee : Prop := {
  rnd_monotone : forall x y : R, (x <= y)%R -> (rnd x <= rnd y)%R;
  rnd_zero : rnd 0 = 0%R;
  rnd_one : rnd 1 = 1%R;
  rnd_error : forall x : R,
    (Rabs (rnd x - x) <= unit_roundoff * Rabs x + tiny)%R;
  exp_of_nan : np_exp NaN = NaN;
  exp_of_zero : np_exp (Finite 0) = Finite 1;
  exp_of_ninf : np_exp NInf = Finite 0;
  exp_of_nonpos : forall x : R, (x <= 0)%R ->
    exists y : R, np_exp (Finite x) = Finite y /\ (0 <= y <= 1)%R;
  tanh_of_nan : np_tanh NaN = NaN;
  tanh_of_pinf : np_tanh PInf = Finite 1;
  tanh_of_ninf : np_tanh NInf = Finite (-1);
  tanh_of_finite : forall x : R,
    exists y : R, np_tanh (Finite x) = Finite y /\ (-1 <= y <= 1)%R
}.

End Float64.

Arguments ieee fa : clear implicits.

(** The logits for which [softmax] has no value: one of them is NaN or
    +inf, or all of them are -inf. *)
Definition nan_logits (z : list float64) : bool :=
  existsb is_nan z || existsb is_pinf z || forallb is_ninf z.

(** The arithmetic without rounding error, with the exact exponential,
    hyperbolic tangent and logarithm. *)
Definition exact_arith : float_arith := {|
  rnd := fun x => x;
  np_exp := fun a =>
    match a with
    | Finite x => overflow (exp x)
    | PInf => PInf
    | NInf => Finite 0
    | NaN => NaN
    end;
  np_tanh := fun a =>
    match a with
    | Finite x => Finite (tanh x)
    | PInf => Finite 1
    | NInf => Finite (-1)
    | NaN => NaN
    end;
  np_log := fun a =>
    match a with
    | Finite x =>
        if Rlt_dec x 0 then NaN
        else if Req_dec_T x 0 then NInf
        else Finite (ln x)
    | PInf => PInf
    | NInf | NaN => NaN
    end
|}.

(** A network with one input, two hidden units and one class whose
    weights are finite and large: the first input overflows both hidden
    units; in the second step the first unit adds +inf and -inf. *)
Module Overflow.

Definition U : ndarray float64 := col [Finite (2 ^ 1000); Finite (2 ^ 1000)].
Definition W : ndarray float64 :=
  NdArray 2 [[Finite (- (3 * 2 ^ 1022)); Finite (- (3 * 2 ^ 1022))];
             [Finite 0; Finite 0]].
Definition V : ndarray float64 := NdArray 2 [[Finite 0; Finite 0]].
Definition b : ndarray float64 := col [Finite 0; Finite 0].
Definition c : ndarray float64 := col [Finite 0].
Definition inputs : list (ndarray float64) :=
  [col [Finite (2 ^ 1000)]; col [Finite (2 ^ 1000)]].

End Overflow.

(** * Properties *)

(** ** The error monad and loops *)

Lemma bind_Ok {X Y : Type} (m : result X) (f : X -> result Y) (y : Y) :
  (m ≫= f) = Ok y -> exists x, m = Ok x /\ f x = Ok y.
Proof. destruct m as [x|e]; simpl; [eauto | discriminate]. Qed.

Lemma bind_Raise {X Y : Type} (m : result X) (f : X -> result Y) (e : exn) :
  (m ≫= f) = Raise e -> m = Raise e \/ exists x, m = Ok x /\ f x = Raise e.
Proof. destruct m as [x|e']; simpl; [eauto | intros [= ->]; auto]. Qed.

Lemma for_loop_app {S I : Type} (body : S -> I -> result S) (l1 l2 : list I) (s : S) :
  for_loop body (l1 ++ l2) s = (for_loop body l1 s ≫= for_loop body l2).
Proof.
  revert s. induction l1 as [|i l1 IH]; intros s; simpl; [done|].
  destruct (body s i) as [s'|e]; simpl; [apply IH | done].
Qed.

(** An invariant of the loop body holds of the final state. *)
Lemma for_loop_invariant {S I : Type} (P : S -> Prop) (body : S -> I -> result S)
    (its : list I) :
  (forall s i s', P s -> body s i = Ok s' -> P s') ->
  forall s s', P s -> for_loop body its s = Ok s' -> P s'.
Proof.
  intros Hbody. induction its as [|i its IH]; intros s s' Hs; simpl.
  - intros [= <-]. exact Hs.
  - intros Hrun. apply bind_Ok in Hrun as (s1 & H1 & H2). eauto.
Qed.

Lemma py_get_lookup {X : Type} (l : list X) (i : nat) (x : X) :
  l !! i = Some x -> py_get l i = Ok x.
Proof. unfold py_get. intros ->. done. Qed.

Lemma py_index_nonneg (n : nat) (k : Z) :
  (0 <= k < Z.of_nat n)%Z -> py_index n k = Ok (Z.to_nat k).
Proof.
  intros Hk. unfold py_index.
  destruct (Z.leb_spec 0 k), (Z.ltb_spec k (Z.of_nat n)); simpl; try lia. done.
Qed.

(** ** Arrays of shape (n, 1) are vectors *)

Section NumPyFacts.
Context {A : Type} `{Scalar A}.

Lemma ndarray_eta (a : ndarray A) : a = NdArray (ncols a) (rows a).
Proof. by destruct a. Qed.

Lemma nrows_col (v : list A) : nrows (col v) = length v.
Proof. unfold nrows, col. simpl. by rewrite length_map. Qed.

Lemma vec_of_col (v : list A) : vec_of (col v) = v.
Proof.
  unfold vec_of, column, col. simpl. rewrite map_map. simpl. apply map_id.
Qed.

Lemma entries_col (v : list A) : entries (col v) = v.
Proof.
  unfold entries, col. simpl. induction v as [|x v IH]; simpl; [done|].
  by rewrite IH.
Qed.

Lemma wf_col (v : list A) : wf (col v).
Proof. unfold wf, col. simpl. induction v; simpl; constructor; done. Qed.

Lemma has_shape_col (v : list A) : has_shape (col v) (length v) 1.
Proof. split; [apply nrows_col | split; [done | apply wf_col]]. Qed.

(** An array of shape [(n, 1)] is the column of its entries. *)
Lemma has_shape_vec (a : ndarray A) (n : nat) :
  has_shape a n 1 -> a = col (vec_of a) /\ length (vec_of a) = n.
Proof.
  destruct a as [c rs]. unfold has_shape, nrows, wf, vec_of, column, col. simpl.
  intros (Hn & -> & Hwf). rewrite length_map. split; [|done]. f_equal.
  clear Hn. induction Hwf as [|r rs Hr _ IH]; simpl; [done|].
  rewrite <- IH. f_equal.
  destruct r as [|x [|y r]]; simpl in *; try discriminate. done.
Qed.

Lemma np_zeros_col (n : nat) : np_zeros n 1 = col (replicate n szero).
Proof.
  unfold np_zeros, col. f_equal. induction n as [|n IH]; simpl; [done|].
  by rewrite <- IH.
Qed.

Lemma nth_range_id (d : A) (v : list A) :
  map (fun j => nth j v d) (range (length v)) = v.
Proof.
  unfold range. induction v as [|x v IH]; simpl; [done|].
  f_equal. rewrite <- seq_shift, map_map. exact IH.
Qed.

Lemma rows_T_col (v : list A) : rows (np_T (col v)) = [v].
Proof.
  unfold np_T. simpl. f_equal. fold (vec_of (col v)). apply vec_of_col.
Qed.

(** [np.dot(M, x)] for a vector [x] is the matrix-vector product. *)
Lemma np_dot_col (M : ndarray A) (v : list A) :
  ncols M = length v ->
  np_dot M (col v) = Ok (col (mat_vec (rows M) v)).
Proof.
  intros Hn. unfold np_dot. rewrite nrows_col, Hn, Nat.eqb_refl.
  rewrite rows_T_col. unfold col, mat_vec. simpl. by rewrite map_map.
Qed.

Lemma np_dot_mismatch (M x : ndarray A) :
  ncols M <> nrows x -> np_dot M x = Raise ValueError.
Proof.
  intros Hn. unfold np_dot. by apply Nat.eqb_neq in Hn as ->.
Qed.

Lemma stretch_same (a : ndarray A) : stretch a (nrows a) (ncols a) = rows a.
Proof. unfold stretch. by rewrite !Nat.eqb_refl. Qed.

Lemma bdim_same (n : nat) : bdim n n = Some n.
Proof. unfold bdim. by rewrite Nat.eqb_refl. Qed.

Lemma zip_with_single (f : A -> A -> A) (u v : list A) :
  zip_with (zip_with f) (map (fun x => [x]) u) (map (fun x => [x]) v)
  = map (fun x => [x]) (zip_with f u v).
Proof.
  revert v. induction u as [|x u IH]; intros [|y v]; simpl; try done.
  by rewrite IH.
Qed.

Lemma ewise_same (f : A -> A -> A) (a b : ndarray A) :
  nrows a = nrows b -> ncols a = ncols b ->
  ewise f a b = Ok (NdArray (ncols a) (zip_with (zip_with f) (rows a) (rows b))).
Proof.
  intros Hr Hc. unfold ewise. rewrite <- Hr, <- Hc, !bdim_same.
  rewrite stretch_same. rewrite Hr, Hc, stretch_same. done.
Qed.

Lemma ewise_col (f : A -> A -> A) (u v : list A) :
  length u = length v ->
  ewise f (col u) (col v) = Ok (col (zip_with f u v)).
Proof.
  intros Hl. rewrite ewise_same by (by rewrite ?nrows_col).
  unfold col. simpl. by rewrite zip_with_single.
Qed.

Lemma np_map_col (f : A -> A) (v : list A) : np_map f (col v) = col (map f v).
Proof. unfold np_map, col. simpl. by rewrite !map_map. Qed.

Lemma np_sum_col (v : list A) : np_sum (col v) = ssum v.
Proof. unfold np_sum. by rewrite entries_col. Qed.

Lemma np_max_col (v : list A) : v <> [] -> np_max (col v) = Ok (max_entry v).
Proof. unfold np_max. rewrite entries_col. by destruct v. Qed.

Lemma softmax_col (z : list A) :
  z <> [] -> softmax (col z) = Ok (col (softmax_vec z)).
Proof.
  intros Hz. unfold softmax. rewrite np_max_col by done. simpl.
  rewrite !np_map_col, np_sum_col. unfold softmax_vec. by rewrite !map_map.
Qed.

Lemma fits_same (a : ndarray A) : fits a (nrows a) (ncols a) = true.
Proof. unfold fits. by rewrite !Nat.eqb_refl. Qed.

Lemma np_setitem_col (l : list (ndarray A)) (i : nat) (v : list A) :
  i < length l ->
  np_setitem (length v) 1 l i (col v) = Ok (<[i := col v]> l).
Proof.
  intros Hi. unfold np_setitem. rewrite decide_True by done.
  pose proof (fits_same (col v)) as Hf. rewrite nrows_col in Hf.
  simpl in Hf. rewrite Hf.
  pose proof (stretch_same (col v)) as Hs. rewrite nrows_col in Hs.
  simpl in Hs. by rewrite Hs.
Qed.

End NumPyFacts.

(** ** The forward pass on well-shaped arguments *)

Section ForwardFacts.
Context {A : Type} `{Scalar A}.
Variables (n h o : nat) (U W V b c : ndarray A).
Hypothesis HU : has_shape U h n.
Hypothesis HW : has_shape W h h.
Hypothesis HV : has_shape V o h.
Hypothesis Hb : has_shape b h 1.
Hypothesis Hc : has_shape c o 1.

Lemma length_mat_vec (M : list (list A)) (v : list A) :
  length (mat_vec M v) = length M.
Proof. unfold mat_vec. apply length_map. Qed.

Lemma length_cell (x hp : list A) : length (cell U W b x hp) = h.
Proof.
  destruct HU as (HUr & _), HW as (HWr & _).
  destruct (has_shape_vec b h Hb) as (_ & Hbl).
  unfold cell, vadd, nrows in *.
  rewrite length_map, !length_zip_with, !length_mat_vec. lia.
Qed.

Lemma length_logits (hp : list A) :
  length (vadd (mat_vec (rows V) hp) (vec_of c)) = o.
Proof.
  destruct HV as (HVr & _). destruct (has_shape_vec c o Hc) as (_ & Hcl).
  unfold vadd, nrows in *. rewrite length_zip_with, length_mat_vec. lia.
Qed.

Lemma length_softmax_vec (z : list A) : length (softmax_vec z) = length z.
Proof. unfold softmax_vec. by rewrite !length_map. Qed.

Lemma length_readout (hp : list A) : length (readout V c hp) = o.
Proof. unfold readout. by rewrite length_softmax_vec, length_logits. Qed.

(** The states of the trajectory. *)
Lemma hidden_from_lookup (xs : list (list A)) : forall (h0 : list A) (t : nat) x hp,
  xs !! t = Some x ->
  (h0 :: hidden_from U W b h0 xs) !! t = Some hp ->
  (h0 :: hidden_from U W b h0 xs) !! S t = Some (cell U W b x hp).
Proof.
  induction xs as [|x0 xs IH]; intros h0 t x hp Hx Hh; [done|].
  destruct t as [|t]; simpl in *.
  - by inversion Hx; inversion Hh; subst.
  - eapply IH; eauto.
Qed.

Lemma length_hidden_from (xs : list (list A)) (h0 : list A) :
  length (hidden_from U W b h0 xs) = length xs.
Proof. revert h0. induction xs as [|x xs IH]; intros h0; simpl; [done|].
  by rewrite IH. Qed.

Lemma length_trajectory (xs : list (list A)) :
  length (trajectory h U W b xs) = S (length xs).
Proof. unfold trajectory. simpl. by rewrite length_hidden_from. Qed.

Lemma trajectory_S (xs : list (list A)) (t : nat) x hp :
  xs !! t = Some x ->
  trajectory h U W b xs !! t = Some hp ->
  trajectory h U W b xs !! S t = Some (cell U W b x hp).
Proof. apply hidden_from_lookup. Qed.

Lemma trajectory_length_at (xs : list (list A)) (t : nat) hp :
  trajectory h U W b xs !! t = Some hp -> length hp = h.
Proof.
  unfold trajectory. destruct t as [|t]; simpl.
  - intros [= <-]. apply length_replicate.
  - generalize (replicate h (@szero A _)) as h0. revert t.
    induction xs as [|x xs IH]; intros t h0 Hl; [done|].
    destruct t as [|t]; simpl in Hl.
    + inversion Hl. apply length_cell.
    + eapply IH; eauto.
Qed.

Hypothesis Ho : 0 < o.

(** One iteration of the loop. *)
Lemma forward_body_run (inputs outs hs : list (ndarray A)) (t : nat) (x hp : list A) :
  inputs !! t = Some (col x) -> length x = n ->
  hs !! t = Some (col hp) -> length hp = h ->
  t + 1 < length hs ->
  forward_body h inputs U W V b c (outs, hs) t
  = Ok (outs ++ [col (readout V c (cell U W b x hp))],
        <[t + 1 := col (cell U W b x hp)]> hs).
Proof.
  intros Hx Hxl Hh Hhl Ht.
  destruct HU as (HUr & HUc & _), HW as (HWr & HWc & _), HV as (HVr & HVc & _).
  destruct (has_shape_vec b h Hb) as (Hbe & Hbl).
  destruct (has_shape_vec c o Hc) as (Hce & Hcl).
  unfold forward_body.
  rewrite (py_get_lookup _ _ _ Hx). simpl.
  rewrite np_dot_col by lia. simpl.
  rewrite (py_get_lookup _ _ _ Hh). simpl.
  rewrite np_dot_col by lia. simpl.
  unfold np_add. rewrite ewise_col by (rewrite !length_mat_vec; unfold nrows in *; lia).
  simpl. rewrite Hbe at 1.
  rewrite ewise_col
    by (rewrite length_zip_with, !length_mat_vec; unfold nrows in *; lia).
  simpl. rewrite np_map_col.
  fold (vadd (mat_vec (rows U) x) (mat_vec (rows W) hp)).
  fold (vadd (vadd (mat_vec (rows U) x) (mat_vec (rows W) hp)) (vec_of b)).
  fold (cell U W b x hp).
  pose proof (length_cell x hp) as Hcell.
  rewrite <- Hcell at 1. rewrite np_setitem_col by done. simpl.
  rewrite (py_get_lookup _ _ (col (cell U W b x hp)))
    by (apply list_lookup_insert_eq; done).
  simpl. rewrite np_dot_col by lia. simpl.
  rewrite Hce at 1.
  rewrite ewise_col by (rewrite length_mat_vec; unfold nrows in *; lia).
  simpl. fold (vadd (mat_vec (rows V) (cell U W b x hp)) (vec_of c)).
  rewrite softmax_col.
  - done.
  - intros Hnil. pose proof (length_logits (cell U W b x hp)) as Hl.
    rewrite Hnil in Hl. simpl in Hl. lia.
Qed.

Lemma outputs_of_lookup (xs : list (list A)) (t : nat) (hn : list A) :
  trajectory h U W b xs !! S t = Some hn ->
  outputs_of h U W V b c xs !! t = Some (readout V c hn).
Proof.
  unfold trajectory, outputs_of. simpl. intros Hl.
  by rewrite list_lookup_fmap, Hl.
Qed.

Lemma forward_loop_run (xs : list (list A)) :
  Forall (fun x => length x = n) xs ->
  forall m k, k + m = length xs ->
  for_loop (forward_body h (map col xs) U W V b c) (seq k m)
    (map col (take k (outputs_of h U W V b c xs)),
     map col (take (S k) (trajectory h U W b xs)) ++ replicate m (np_zeros h 1))
  = Ok (map col (outputs_of h U W V b c xs), map col (trajectory h U W b xs)).
Proof.
  intros Hxs. induction m as [|m IH]; intros k Hk.
  - simpl. rewrite app_nil_r.
    rewrite !take_ge; [done | |].
    all: unfold outputs_of;
      rewrite ?length_trajectory, ?length_map, ?length_hidden_from; lia.
  - cbn [seq for_loop].
    destruct (lookup_lt_is_Some_2 xs k) as [x Hx]; [lia|].
    destruct (lookup_lt_is_Some_2 (trajectory h U W b xs) k) as [hp Hhp];
      [rewrite length_trajectory; lia|].
    pose proof (trajectory_S _ _ _ _ Hx Hhp) as Hnext.
    rewrite (forward_body_run _ _ _ _ x hp); first last.
    + rewrite length_app, length_map, length_take, length_trajectory,
        length_replicate. simpl. lia.
    + eapply trajectory_length_at; eauto.
    + rewrite lookup_app_l
        by (rewrite length_map, length_take, length_trajectory; lia).
      rewrite list_lookup_fmap, lookup_take_lt by lia. by rewrite Hhp.
    + rewrite Forall_forall in Hxs. apply Hxs. eapply list_elem_of_lookup_2; eauto.
    + by rewrite list_lookup_fmap, Hx.
    + cbn [mbind result_bind].
      assert (<[k + 1 := col (cell U W b x hp)]>
                (map col (take (S k) (trajectory h U W b xs))
                 ++ replicate (S m) (np_zeros h 1))
              = map col (take (S (S k)) (trajectory h U W b xs))
                ++ replicate m (np_zeros h 1)) as ->.
      { rewrite (take_S_r _ (S k) _ Hnext), map_app, <- app_assoc.
        rewrite insert_app_r_alt
          by (rewrite length_map, length_take, length_trajectory; lia).
        rewrite length_map, length_take, length_trajectory.
        replace (k + 1 - S k `min` S (length xs)) with 0 by lia. done. }
      assert (map col (take k (outputs_of h U W V b c xs))
                ++ [col (readout V c (cell U W b x hp))]
              = map col (take (S k) (outputs_of h U W V b c xs))) as ->.
      { by rewrite (take_S_r _ k _ (outputs_of_lookup _ _ _ Hnext)), map_app. }
      apply IH. lia.
Qed.

(** [forward] on well-shaped arguments returns the trajectory and the
    outputs of the description. *)
Lemma forward_run (xs : list (list A)) :
  Forall (fun x => length x = n) xs ->
  forward h (map col xs) U W V b c
  = Ok (map col (outputs_of h U W V b c xs), map col (trajectory h U W b xs)).
Proof.
  intros Hxs. unfold forward. rewrite length_map.
  rewrite np_zeros_col.
  pose proof (np_setitem_col (replicate (length xs + 1) (col (replicate h szero))) 0
                (replicate h szero)) as Hset.
  rewrite !length_replicate in Hset. rewrite Hset by lia. simpl.
  pose proof (forward_loop_run xs Hxs (length xs) 0 eq_refl) as Hrun.
  unfold range. replace (length xs + 1) with (S (length xs)) by lia.
  cbn [mbind result_bind replicate insert list_insert].
  rewrite np_zeros_col in Hrun. exact Hrun.
Qed.

End ForwardFacts.

(** ** The backward pass on well-shaped arguments *)

Section BackwardFacts.
Context {A : Type} `{Scalar A}.
Hypothesis sadd_comm : forall x y : A, sadd x y = sadd y x.
Hypothesis sadd_0_r : forall x : A, sadd x szero = x.

Lemma vadd_comm (u v : list A) : vadd u v = vadd v u.
Proof.
  unfold vadd. revert v. induction u as [|x u IH]; intros [|y v]; simpl; try done.
  by rewrite sadd_comm, IH.
Qed.

Lemma madd_comm (M N : list (list A)) : madd M N = madd N M.
Proof.
  unfold madd. revert N. induction M as [|x M IH]; intros [|y N]; simpl; try done.
  rewrite IH. f_equal. apply vadd_comm.
Qed.

Lemma length_outer (u v : list A) : length (outer u v) = length u.
Proof. unfold outer. apply length_map. Qed.

Lemma rows_T_T_col (v : list A) :
  rows (np_T (np_T (col v))) = map (fun x => [x]) v.
Proof.
  unfold np_T at 1. cbn [rows].
  change (ncols (np_T (col v))) with (nrows (col v)). rewrite nrows_col.
  unfold column. rewrite rows_T_col. cbn [map].
  rewrite <- (nth_range_id szero v) at 2. by rewrite map_map.
Qed.

(** [np.dot(u, v.T)] for two vectors is the outer product. *)
Lemma np_dot_outer (u v : list A) :
  np_dot (col u) (np_T (col v)) = Ok (NdArray (length v) (outer u v)).
Proof.
  unfold np_dot. change (ncols (col u)) with 1.
  replace (nrows (np_T (col v))) with 1
    by (unfold nrows; by rewrite rows_T_col).
  cbn [Nat.eqb]. rewrite rows_T_T_col.
  change (ncols (np_T (col v))) with (nrows (col v)). rewrite nrows_col.
  do 2 f_equal. unfold outer, col. cbn [rows]. rewrite map_map.
  apply map_ext. intros x. rewrite map_map.
  apply map_ext. intros y. unfold dotp. simpl. apply sadd_0_r.
Qed.

(** [np.dot(M.T, v)] is the product with the transpose. *)
Lemma np_dot_T (M : ndarray A) (v : list A) :
  nrows M = length v ->
  np_dot (np_T M) (col v) = Ok (col (matT_vec M v)).
Proof.
  intros Hn. rewrite np_dot_col by done. do 2 f_equal.
  unfold mat_vec, matT_vec, np_T. cbn [rows]. by rewrite map_map.
Qed.

Lemma length_matT_vec (M : ndarray A) (v : list A) :
  length (matT_vec M v) = ncols M.
Proof. unfold matT_vec, range. by rewrite length_map, length_seq. Qed.

Lemma np_iadd_mat (m : nat) (M N : list (list A)) :
  length N = length M ->
  np_iadd (NdArray m M) (NdArray m N) = Ok (NdArray m (madd M N)).
Proof.
  intros Hl. unfold np_iadd, fits, stretch, nrows. cbn [ncols rows].
  by rewrite Hl, !Nat.eqb_refl.
Qed.

Lemma np_iadd_col (u v : list A) :
  length v = length u ->
  np_iadd (col u) (col v) = Ok (col (vadd u v)).
Proof.
  intros Hl. unfold col. rewrite np_iadd_mat by (by rewrite !length_map).
  unfold madd, vadd. by rewrite zip_with_single.
Qed.

Lemma np_zeros_like_col (v : list A) :
  np_zeros_like (col v) = col (replicate (length v) szero).
Proof. unfold np_zeros_like. rewrite nrows_col. apply np_zeros_col. Qed.

Lemma np_setrow_one_hot (v : list A) (k : Z) :
  (0 <= k < Z.of_nat (length v))%Z ->
  np_setrow (np_zeros_like (col v)) k sone = Ok (col (one_hot (length v) k)).
Proof.
  intros Hk. rewrite np_zeros_like_col. unfold np_setrow.
  rewrite nrows_col, length_replicate, py_index_nonneg by done.
  cbn [mbind result_bind]. unfold one_hot, col. cbn [ncols rows].
  by rewrite list_fmap_insert.
Qed.

Lemma length_one_hot (o : nat) (k : Z) : length (one_hot (A:=A) o k) = o.
Proof. unfold one_hot. by rewrite length_insert, length_replicate. Qed.

Lemma length_msum (r m : nat) (l : list (list (list A))) :
  Forall (fun M => length M = r) l -> length (msum r m l) = r.
Proof.
  induction 1 as [|M l HM _ IH]; simpl; [apply length_replicate|].
  unfold madd. rewrite length_zip_with. fold (madd M (msum r m l)). lia.
Qed.

Lemma length_vsum (r : nat) (l : list (list A)) :
  Forall (fun v => length v = r) l -> length (vsum r l) = r.
Proof.
  induction 1 as [|v l Hv _ IH]; simpl; [apply length_replicate|].
  unfold vadd. rewrite length_zip_with. fold (vadd v (vsum r l)). lia.
Qed.

Section Shapes.
Variables (n h o : nat) (U W V b c : ndarray A).
Hypothesis HU : has_shape U h n.
Hypothesis HW : has_shape W h h.
Hypothesis HV : has_shape V o h.

Lemma length_dy_of (out : list A) (k : Z) :
  length out = o -> length (dy_of o out k) = o.
Proof.
  intros Hl. unfold dy_of, vsub. rewrite length_zip_with, length_one_hot. lia.
Qed.

Lemma length_dtanh_of (h' dy dn : list A) :
  length h' = h -> length dn = h ->
  length (dtanh_of h' (vadd (matT_vec V dy) dn)) = h.
Proof.
  intros Hh Hn. destruct HV as (_ & HVc & _).
  unfold dtanh_of, vmul, vadd.
  rewrite !length_zip_with, length_map, length_matT_vec. lia.
Qed.

(** One iteration of the loop of [backward]. *)
Lemma backward_body_run (inputs outputs hidden_states : list (ndarray A))
    (targets : list Z) (t : nat) (x out hp hn : list A) (k : Z)
    (MU MW MV : list (list A)) (bv cv dn : list A) :
  inputs !! t = Some (col x) ->
  outputs !! t = Some (col out) -> length out = o ->
  targets !! t = Some k -> (0 <= k < Z.of_nat o)%Z ->
  hidden_states !! t = Some (col hp) ->
  hidden_states !! (t + 1) = Some (col hn) -> length hn = h ->
  length MU = h -> length MW = h -> length MV = o ->
  length bv = h -> length cv = o -> length dn = h ->
  let dy := dy_of o out k in
  let dt := dtanh_of hn (vadd (matT_vec V dy) dn) in
  backward_body inputs outputs hidden_states targets U W V b c
    (Grads (NdArray (length x) MU) (NdArray (length hp) MW) (NdArray h MV)
       (col bv) (col cv) (col dn)) t
  = Ok (Grads (NdArray (length x) (madd MU (outer dt x)))
          (NdArray (length hp) (madd MW (outer dt hp)))
          (NdArray h (madd MV (outer dy hn)))
          (col (vadd bv dt)) (col (vadd cv dy)) (col (matT_vec W dt))).
Proof.
  intros Hx Hout Houtl Hk Hkr Hhp Hhn Hhnl HMU HMW HMV Hbv Hcv Hdn dy dt.
  destruct HW as (HWr & HWc & _), HV as (HVr & HVc & _).
  pose proof (length_dy_of out k Houtl) as Hdy. fold dy in Hdy.
  pose proof (length_dtanh_of hn dy dn Hhnl Hdn) as Hdt. fold dt in Hdt.
  unfold backward_body.
  rewrite (py_get_lookup _ _ _ Hout). cbn [mbind result_bind].
  rewrite (py_get_lookup _ _ _ Hk). cbn [mbind result_bind].
  rewrite np_setrow_one_hot by (by rewrite Houtl). rewrite Houtl.
  cbn [mbind result_bind].
  unfold np_sub. rewrite ewise_col by (by rewrite length_one_hot).
  cbn [mbind result_bind]. fold (vsub out (one_hot o k)). fold (dy_of o out k). fold dy.
  rewrite (py_get_lookup _ _ _ Hhn). cbn [mbind result_bind].
  rewrite np_dot_outer. cbn [mbind result_bind]. rewrite Hhnl.
  cbn [g_dV g_dc g_dh_next g_db g_dU g_dW].
  rewrite np_iadd_mat by (rewrite length_outer; lia). cbn [mbind result_bind].
  rewrite np_iadd_col by lia. cbn [mbind result_bind].
  rewrite np_dot_T by lia. cbn [mbind result_bind].
  unfold np_add. rewrite ewise_col by (rewrite length_matT_vec; lia).
  cbn [mbind result_bind]. fold (vadd (matT_vec V dy) dn).
  rewrite !np_map_col, map_map. unfold np_mul.
  rewrite ewise_col
    by (unfold vadd; rewrite length_map, length_zip_with, length_matT_vec; lia).
  cbn [mbind result_bind].
  fold (vmul (map (fun v => ssub sone (smul v v)) hn) (vadd (matT_vec V dy) dn)).
  fold (dtanh_of hn (vadd (matT_vec V dy) dn)). fold dt.
  rewrite np_iadd_col by lia. cbn [mbind result_bind].
  rewrite (py_get_lookup _ _ _ Hx). cbn [mbind result_bind].
  rewrite np_dot_outer. cbn [mbind result_bind].
  rewrite np_iadd_mat by (rewrite length_outer; lia). cbn [mbind result_bind].
  rewrite (py_get_lookup _ _ _ Hhp). cbn [mbind result_bind].
  rewrite np_dot_outer. cbn [mbind result_bind].
  rewrite np_iadd_mat by (rewrite length_outer; lia). cbn [mbind result_bind].
  rewrite np_dot_T by lia. done.
Qed.

Lemma length_dh_next_of (ds : list (list A)) : length (dh_next_of h W ds) = h.
Proof.
  destruct HW as (_ & HWc & _).
  destruct ds; simpl; [apply length_replicate | by rewrite length_matT_vec].
Qed.

Lemma deltas_lengths (steps : list (list A * list A)) :
  Forall (fun s => length s.2 = h) steps ->
  Forall (fun d => length d = h) (deltas h W V steps).
Proof.
  induction 1 as [|[dy hn] steps Hs _ IH]; simpl; constructor; [|done].
  apply length_dtanh_of; [done | apply length_dh_next_of].
Qed.

Lemma length_deltas (steps : list (list A * list A)) :
  length (deltas h W V steps) = length steps.
Proof. induction steps as [|[dy hn] steps IH]; simpl; [done | by rewrite IH]. Qed.

Lemma deltas_drop (steps : list (list A * list A)) (j : nat) :
  drop j (deltas h W V steps) = deltas h W V (drop j steps).
Proof.
  revert j. induction steps as [|[dy hn] steps IH]; intros [|j]; simpl; done.
Qed.

Lemma outer_lengths (r : nat) (us vs : list (list A)) :
  Forall (fun u => length u = r) us ->
  Forall (fun M => length M = r) (zip_with outer us vs).
Proof.
  intros Hus. revert vs. induction Hus as [|u us Hu _ IH]; intros [|v vs];
    simpl; constructor; [by rewrite length_outer | apply IH].
Qed.

Section Sequence.
Variables (xs outs hs : list (list A)) (targets : list Z).
Hypothesis Hxs : Forall (fun x => length x = n) xs.
Hypothesis Houts : Forall (fun y => length y = o) outs.
Hypothesis Hhs : Forall (fun s => length s = h) hs.
Hypothesis Hts : Forall (fun k => (0 <= k < Z.of_nat o)%Z) targets.
Hypothesis Houtl : length outs = length xs.
Hypothesis Htl : length targets = length xs.
Hypothesis Hhl : length hs = S (length xs).

(** The state of the loop once the steps from [j] on are done. *)
Lemma backward_loop_run (j : nat) :
  j <= length xs ->
  let dys := output_errors o outs targets in
  let ds := hidden_errors h W V dys hs in
  let G := fun j =>
    Grads (NdArray n (msum h n (drop j (zip_with outer ds xs))))
      (NdArray h (msum h h (drop j (zip_with outer ds hs))))
      (NdArray h (msum o h (drop j (zip_with outer dys (tail hs)))))
      (col (vsum h (drop j ds))) (col (vsum o (drop j dys)))
      (col (dh_next_of h W (drop j ds))) in
  for_loop (backward_body (map col xs) (map col outs) (map col hs) targets U W V b c)
    (reverse (seq 0 j)) (G j)
  = Ok (G 0).
Proof.
  intros Hj dys ds G. induction j as [|j IH]; [done|].
  rewrite seq_S, reverse_app. cbn [reverse rev_append app for_loop Nat.add].
  destruct (lookup_lt_is_Some_2 xs j) as [x Hx]; [lia|].
  destruct (lookup_lt_is_Some_2 outs j) as [out Hout]; [lia|].
  destruct (lookup_lt_is_Some_2 targets j) as [k Hk]; [lia|].
  destruct (lookup_lt_is_Some_2 hs j) as [hp Hhp]; [lia|].
  destruct (lookup_lt_is_Some_2 hs (S j)) as [hn Hhn]; [lia|].
  pose proof Hxs as Hxs'. pose proof Houts as Houts'. pose proof Hhs as Hhs'.
  pose proof Hts as Hts'.
  rewrite Forall_forall in Hxs'. rewrite Forall_forall in Houts'.
  rewrite Forall_forall in Hhs'. rewrite Forall_forall in Hts'.
  pose proof (Hxs' _ (list_elem_of_lookup_2 _ _ _ Hx)) as Hxl.
  pose proof (Houts' _ (list_elem_of_lookup_2 _ _ _ Hout)) as Hol.
  pose proof (Hhs' _ (list_elem_of_lookup_2 _ _ _ Hhp)) as Hhpl.
  pose proof (Hhs' _ (list_elem_of_lookup_2 _ _ _ Hhn)) as Hhnl.
  pose proof (Hts' _ (list_elem_of_lookup_2 _ _ _ Hk)) as Hkr.
  assert (Forall (fun y => length y = o) dys) as Hdys.
  { apply Forall_forall. intros y Hy.
    apply list_elem_of_lookup in Hy as (i & Hi).
    apply lookup_zip_with_Some in Hi as (out' & k' & -> & Ho' & _).
    apply length_dy_of, Houts'. eapply list_elem_of_lookup_2; eauto. }
  assert (Forall (fun d => length d = h) ds) as Hds.
  { apply deltas_lengths. apply Forall_forall. intros [dy' hn'] Hin.
    apply elem_of_zip_r in Hin. cbn [snd]. apply Hhs'.
    destruct hs; [done|]. cbn [tail] in Hin. by right. }
  assert (dys !! j = Some (dy_of o out k)) as Hdy.
  { apply lookup_zip_with_Some. eauto. }
  set (dy := dy_of o out k) in *.
  assert (tail hs !! j = Some hn) as Hhn'.
  { destruct hs; [done|]. exact Hhn. }
  set (dt := dtanh_of hn (vadd (matT_vec V dy) (dh_next_of h W (drop (S j) ds)))).
  assert (drop j ds = dt :: drop (S j) ds) as Hdrop.
  { unfold ds, hidden_errors at 1. rewrite deltas_drop.
    erewrite (drop_S _ (dy, hn) j)
      by (apply lookup_zip_with_Some; eauto).
    cbn [deltas]. rewrite <- deltas_drop. done. }
  assert (ds !! j = Some dt) as Hdt.
  { rewrite <- (Nat.add_0_r j), <- lookup_drop, Hdrop. done. }
  replace (j + 1) with (S j) in * by lia.
  change (0 + j) with j.
  subst G. cbn beta.
  rewrite <- Hxl at 1. rewrite <- Hhpl at 2.
  erewrite (backward_body_run _ _ _ _ j x out hp hn k); first last.
  - apply length_dh_next_of.
  - apply length_vsum. by apply Forall_drop.
  - apply length_vsum. by apply Forall_drop.
  - apply length_msum, Forall_drop, outer_lengths, Hdys.
  - apply length_msum, Forall_drop, outer_lengths, Hds.
  - apply length_msum, Forall_drop, outer_lengths, Hds.
  - done.
  - replace (j + 1) with (S j) by lia. by rewrite list_lookup_fmap, Hhn.
  - by rewrite list_lookup_fmap, Hhp.
  - done.
  - done.
  - done.
  - by rewrite list_lookup_fmap, Hout.
  - by rewrite list_lookup_fmap, Hx.
  - cbn [mbind result_bind]. fold dy. fold dt.
    rewrite Hxl, Hhpl. rewrite <- IH by lia. f_equal.
    rewrite (madd_comm _ (outer dt x)), (madd_comm _ (outer dt hp)),
      (madd_comm _ (outer dy hn)), (vadd_comm _ dt), (vadd_comm _ dy).
    rewrite (drop_S (zip_with outer ds xs) (outer dt x) j)
      by (apply lookup_zip_with_Some; eauto).
    rewrite (drop_S (zip_with outer ds hs) (outer dt hp) j)
      by (apply lookup_zip_with_Some; eauto).
    rewrite (drop_S (zip_with outer dys (tail hs)) (outer dy hn) j)
      by (apply lookup_zip_with_Some; eauto).
    rewrite (drop_S dys dy j) by done.
    rewrite Hdrop. done.
Qed.

Hypothesis Hb : has_shape b h 1.
Hypothesis Hc : has_shape c o 1.

(** [backward] on well-shaped arguments returns the gradients of the
    description. *)
Lemma backward_run :
  backward (map col xs) (map col outs) (map col hs) targets U W V b c
  = let '(dU, dW, dV, db, dc) := bptt n h o W V xs outs hs targets in
    Ok (NdArray n dU, NdArray h dW, NdArray h dV, col db, col dc).
Proof.
  pose proof (backward_loop_run (length xs) (Nat.le_refl _)) as Hloop.
  cbv beta zeta in Hloop.
  set (dys := output_errors o outs targets) in *.
  set (ds := hidden_errors h W V dys hs) in *.
  assert (length dys = length xs) as Hdysl.
  { unfold dys, output_errors. rewrite length_zip_with. lia. }
  assert (length ds <= length xs) as Hdsl.
  { unfold ds, hidden_errors. rewrite length_deltas, length_zip. lia. }
  rewrite !drop_ge in Hloop
    by (rewrite ?length_zip_with; lia).
  destruct HU as (HUr & HUc & _), HW as (HWr & HWc & _), HV as (HVr & HVc & _).
  destruct Hb as (Hbr & Hbc & _), Hc as (Hcr & Hcc & _).
  destruct hs as [|h0 hs']; [done|].
  unfold backward. rewrite length_map. cbn [map].
  rewrite (py_get_lookup _ 0 (col h0)) by done. cbn [mbind result_bind].
  unfold np_zeros_like at 1 2 3 4 5.
  rewrite HUr, HUc, HWr, HWc, HVr, HVc, Hbr, Hbc, Hcr, Hcc.
  rewrite np_zeros_like_col.
  assert (length h0 = h) as -> by (by inversion Hhs).
  rewrite !np_zeros_col. unfold range.
  cbn [msum vsum foldr dh_next_of] in Hloop.
  unfold np_zeros at 1 2 3. cbn [map] in Hloop.
  rewrite Hloop. cbn [mbind result_bind g_dU g_dW g_dV g_db g_dc].
  rewrite !drop_0. done.
Qed.

End Sequence.

End Shapes.

End BackwardFacts.

(** ** Sequences of well-shaped vectors *)

Section Columns.
Context {A : Type} `{Scalar A}.

Lemma columns_of (l : list (ndarray A)) (n : nat) :
  Forall (fun x => has_shape x n 1) l ->
  l = map col (map vec_of l) /\ Forall (fun x => length x = n) (map vec_of l).
Proof.
  induction 1 as [|x l Hx _ [IH1 IH2]]; simpl; [done|].
  destruct (has_shape_vec x n Hx) as (Hxe & Hxl).
  split; [by rewrite <- Hxe, <- IH1 | by constructor].
Qed.

Lemma lookup_column (l : list (ndarray A)) (n t : nat) (x : ndarray A) :
  Forall (fun x => has_shape x n 1) l ->
  l !! t = Some x -> x = col (vec_of x) /\ map vec_of l !! t = Some (vec_of x).
Proof.
  intros Hl Hx. rewrite Forall_forall in Hl.
  destruct (has_shape_vec x n (Hl _ (list_elem_of_lookup_2 _ _ _ Hx))) as (He & _).
  split; [done | by rewrite list_lookup_fmap, Hx].
Qed.

End Columns.

(** ** The recurrence computed by [forward] *)

(** C2.  On a sequence of input vectors of the width of [U] and parameters
    of matching shapes (with at least one output class), [forward] returns
    outputs and a hidden trajectory such that the trajectory starts with
    the zero vector and, at every step [t], the state [t+1] is
    [tanh (U·x_t + W·h_t + b)] and the output [t] is the softmax of
    [V·h_(t+1) + c], where the softmax subtracts the maximum entry before
    exponentiating and divides by the sum of the exponentials. *)
Theorem forward_recurrence {A : Type} `{Scalar A} (n h o : nat)
    (U W V b c : ndarray A) (inputs : list (ndarray A)) :
  has_shape U h n -> has_shape W h h -> has_shape V o h ->
  has_shape b h 1 -> has_shape c o 1 -> 0 < o ->
  Forall (fun x => has_shape x n 1) inputs ->
  exists outputs hidden_states,
    forward h inputs U W V b c = Ok (outputs, hidden_states) /\
    hidden_states !! 0 = Some (np_zeros h 1) /\
    forall t x, inputs !! t = Some x ->
      exists hp hn out,
        hidden_states !! t = Some hp /\
        hidden_states !! (t + 1) = Some hn /\
        outputs !! t = Some out /\
        has_shape hn h 1 /\ has_shape out o 1 /\
        vec_of hn
        = map stanh (vadd (vadd (mat_vec (rows U) (vec_of x))
                                (mat_vec (rows W) (vec_of hp))) (vec_of b)) /\
        vec_of out
        = (let z := vadd (mat_vec (rows V) (vec_of hn)) (vec_of c) in
           let e := map (fun v => sexp (ssub v (max_entry z))) z in
           map (fun v => sdiv v (ssum e)) e).
Proof.
  intros HU HW HV Hb Hc Ho Hin.
  destruct (columns_of inputs n Hin) as (Hie & Hxs).
  set (xs := map vec_of inputs) in *.
  exists (map col (outputs_of h U W V b c xs)), (map col (trajectory h U W b xs)).
  split; [rewrite Hie; by apply (forward_run n h o)|].
  split; [by rewrite np_zeros_col|].
  intros t x Hx.
  destruct (lookup_column inputs n t x Hin Hx) as (Hxe & Hxt). fold xs in Hxt.
  destruct (lookup_lt_is_Some_2 (trajectory h U W b xs) t) as [hp Hhp].
  { rewrite length_trajectory. apply lookup_lt_Some in Hxt. lia. }
  pose proof (trajectory_S _ _ _ _ _ _ _ _ Hxt Hhp) as Hhn.
  assert (outputs_of h U W V b c xs !! t
          = Some (readout V c (cell U W b (vec_of x) hp))) as Hout
    by (by apply outputs_of_lookup).
  exists (col hp), (col (cell U W b (vec_of x) hp)),
    (col (readout V c (cell U W b (vec_of x) hp))).
  replace (t + 1) with (S t) by lia.
  rewrite !list_lookup_fmap, Hhp, Hhn, Hout, !vec_of_col.
  repeat split; try done; try apply wf_col.
  - rewrite nrows_col. eapply length_cell; eauto.
  - rewrite nrows_col. eapply length_readout; eauto.
Qed.

(** ** The gradients computed by [backward] *)

Section Errors.
Context {A : Type} `{Scalar A}.

Lemma output_errors_lookup (o : nat) (outs : list (list A)) (targets : list Z)
    (t : nat) (out : list A) (k : Z) :
  outs !! t = Some out -> targets !! t = Some k ->
  output_errors o outs targets !! t = Some (vsub out (one_hot o k)).
Proof. intros Ho Hk. apply lookup_zip_with_Some. eauto. Qed.

Lemma hidden_errors_lookup (n : nat) (W V : ndarray A) (dys hs : list (list A))
    (t : nat) (dy hn : list A) :
  dys !! t = Some dy -> hs !! (t + 1) = Some hn ->
  hidden_errors n W V dys hs !! t
  = Some (vmul (map (fun v => ssub sone (smul v v)) hn)
            (vadd (matT_vec V dy)
               (dh_next_of n W (drop (S t) (hidden_errors n W V dys hs))))).
Proof.
  intros Hdy Hhn. replace (t + 1) with (S t) in Hhn by lia.
  rewrite <- lookup_tail in Hhn. unfold hidden_errors.
  rewrite <- (Nat.add_0_r t) at 1. rewrite <- lookup_drop.
  rewrite !deltas_drop.
  erewrite (drop_S _ (dy, hn) t) by (apply lookup_zip_with_Some; eauto).
  done.
Qed.

End Errors.

(** C1.  For an arithmetic whose addition is commutative with right unit
    zero, on a sequence of input vectors, output vectors, a hidden
    trajectory with one more vector and target classes within range, all of
    the shapes of the parameters, [backward] returns the five gradients
    that are the sums over all steps of the per-step contributions:
    [dy_t] is [outputs[t] - one_hot(targets[t])], [dtanh_t] is
    [(1 - hidden[t+1]²) ⊙ (Vᵀ·dy_t + dh_next)] with [dh_next] zero for the
    last step and [Wᵀ·dtanh_(t+1)] before, and [dU], [dW], [dV], [db],
    [dc] sum [dtanh_t ⊗ inputs[t]], [dtanh_t ⊗ hidden[t]],
    [dy_t ⊗ hidden[t+1]], [dtanh_t] and [dy_t]. *)
Theorem backward_bptt {A : Type} `{Scalar A} (n h o : nat)
    (U W V b c : ndarray A) (inputs outputs hidden_states : list (ndarray A))
    (targets : list Z) :
  (forall x y : A, sadd x y = sadd y x) ->
  (forall x : A, sadd x szero = x) ->
  has_shape U h n -> has_shape W h h -> has_shape V o h ->
  has_shape b h 1 -> has_shape c o 1 ->
  Forall (fun x => has_shape x n 1) inputs ->
  Forall (fun y => has_shape y o 1) outputs ->
  Forall (fun s => has_shape s h 1) hidden_states ->
  Forall (fun k => (0 <= k < Z.of_nat o)%Z) targets ->
  length outputs = length inputs ->
  length targets = length inputs ->
  length hidden_states = S (length inputs) ->
  let xs := map vec_of inputs in
  let outs := map vec_of outputs in
  let hs := map vec_of hidden_states in
  let dys := output_errors o outs targets in
  let ds := hidden_errors h W V dys hs in
  backward inputs outputs hidden_states targets U W V b c
  = Ok (NdArray n (msum h n (zip_with outer ds xs)),
        NdArray h (msum h h (zip_with outer ds hs)),
        NdArray h (msum o h (zip_with outer dys (tail hs))),
        col (vsum h ds),
        col (vsum o dys)) /\
  (forall t out k, outs !! t = Some out -> targets !! t = Some k ->
     dys !! t = Some (vsub out (one_hot o k))) /\
  (forall t dy hn, dys !! t = Some dy -> hs !! (t + 1) = Some hn ->
     ds !! t = Some (vmul (map (fun v => ssub sone (smul v v)) hn)
                       (vadd (matT_vec V dy) (dh_next_of h W (drop (S t) ds))))).
Proof.
  intros Hcomm Hunit HU HW HV Hb Hc Hin Hout Hhid Hts Hlo Hlt Hlh xs outs hs dys ds.
  destruct (columns_of inputs n Hin) as (Hie & Hxs).
  destruct (columns_of outputs o Hout) as (Hoe & Hos).
  destruct (columns_of hidden_states h Hhid) as (Hhe & Hhs).
  split; [|split].
  - rewrite Hie, Hoe, Hhe.
    erewrite (backward_run Hcomm Hunit n h o); eauto;
      rewrite ?length_map; done.
  - apply output_errors_lookup.
  - apply hidden_errors_lookup.
Qed.

(** ** Real arithmetic: softmax, the loss and the update *)

Section RealFacts.
Local Open Scope R_scope.

Lemma ssum_cons (x : R) (l : list R) : ssum (x :: l) = x + ssum l.
Proof. done. Qed.

Lemma ssum_div (e : list R) (s : R) :
  ssum (map (fun v => v / s) e) = ssum e / s.
Proof.
  induction e as [|x e IH]; cbn [map]; rewrite ?ssum_cons.
  - unfold ssum. simpl. lra.
  - rewrite IH. lra.
Qed.

Lemma ssum_exp_nonneg (z : list R) (m : R) :
  0 <= ssum (map (fun v => exp (v - m)) z).
Proof.
  induction z as [|x z IH]; cbn [map]; rewrite ?ssum_cons.
  - unfold ssum. simpl. lra.
  - pose proof (exp_pos (x - m)). lra.
Qed.

Lemma ssum_exp_pos (z : list R) (m : R) :
  z <> [] -> 0 < ssum (map (fun v => exp (v - m)) z).
Proof.
  destruct z as [|x z]; [done|]. intros _. cbn [map]. rewrite ssum_cons.
  pose proof (exp_pos (x - m)). pose proof (ssum_exp_nonneg z m). lra.
Qed.

(** The entries of a softmax sum to one. *)
Lemma softmax_vec_sum (z : list R) : z <> [] -> ssum (softmax_vec z) = 1.
Proof.
  intros Hz. unfold softmax_vec. rewrite (ssum_div _ _).
  pose proof (ssum_exp_pos z (max_entry z) Hz) as Hpos.
  change (fun v : R => sexp (ssub v (max_entry z)))
    with (fun v : R => exp (v - max_entry z)).
  field. lra.
Qed.

Lemma R_sadd_comm (x y : R) : sadd x y = sadd y x.
Proof. apply Rplus_comm. Qed.

Lemma R_sadd_0_r (x : R) : sadd x szero = x.
Proof. apply Rplus_0_r. Qed.

End RealFacts.

(** ** The update and the loss of [train_step] *)

Section UpdateFacts.
Context {A : Type} `{Scalar A}.

Lemma np_sub_descend (lr : A) (p : ndarray A) (m : nat) (G : list (list A)) :
  ncols p = m -> length G = nrows p ->
  np_sub p (np_map (smul lr) (NdArray m G)) = Ok (descend lr p (NdArray m G)).
Proof.
  intros Hc Hr. unfold np_sub. rewrite ewise_same; first last.
  - done.
  - unfold nrows, np_map. cbn [rows]. by rewrite length_map.
  - unfold descend, np_map. cbn [rows ncols]. do 2 f_equal.
    rewrite zip_with_fmap_r. apply zip_with_ext; [|done..].
    intros r g. by rewrite zip_with_fmap_r.
Qed.

Lemma np_sub_descend_col (lr : A) (p : ndarray A) (g : list A) :
  ncols p = 1 -> length g = nrows p ->
  np_sub p (np_map (smul lr) (col g)) = Ok (descend lr p (col g)).
Proof.
  intros Hc Hr. unfold col. apply np_sub_descend; [done | by rewrite length_map].
Qed.

Lemma np_item_col (out : list A) (k : Z) :
  (0 <= k < Z.of_nat (length out))%Z ->
  np_item (col out) k 0 = Ok (nth (Z.to_nat k) out szero).
Proof.
  intros Hk. unfold np_item. rewrite nrows_col, py_index_nonneg by done.
  cbn [mbind result_bind].
  destruct (lookup_lt_is_Some_2 out (Z.to_nat k)) as [y Hy]; [lia|].
  rewrite (py_get_lookup _ _ [y])
    by (unfold col; cbn [rows]; by rewrite list_lookup_fmap, Hy).
  cbn [mbind result_bind]. change (ncols (col out)) with 1.
  rewrite decide_True by lia. by rewrite nth_lookup, Hy.
Qed.

End UpdateFacts.

Section LossFacts.
Local Open Scope R_scope.
Variables (o : nat) (outs : list (list R)) (targets : list Z).
Hypothesis Houts : Forall (fun y => length y = o) outs.
Hypothesis Hts : Forall (fun k => (0 <= k < Z.of_nat o)%Z) targets.
Hypothesis Hl : length outs = length targets.

Lemma loss_body_run (k : nat) (acc : R) (out : list R) (c : Z) :
  outs !! k = Some out -> targets !! k = Some c ->
  loss_body (map col outs) targets acc k
  = Ok (acc - ln (nth (Z.to_nat c) out 0 + 1e-8)).
Proof.
  intros Hout Hc.
  pose proof Houts as Houts'. pose proof Hts as Hts'.
  rewrite Forall_forall in Houts'. rewrite Forall_forall in Hts'.
  pose proof (Houts' _ (list_elem_of_lookup_2 _ _ _ Hout)) as Hol.
  pose proof (Hts' _ (list_elem_of_lookup_2 _ _ _ Hc)) as Hcr.
  unfold loss_body.
  rewrite (py_get_lookup _ _ (col out)) by (by rewrite list_lookup_fmap, Hout).
  cbn [mbind result_bind]. rewrite (py_get_lookup _ _ _ Hc).
  cbn [mbind result_bind]. rewrite np_item_col by (by rewrite Hol).
  done.
Qed.

Lemma loss_loop_run (m : nat) : forall (k : nat) (acc : R),
  (k + m <= length targets)%nat ->
  for_loop (loss_body (map col outs) targets) (seq k m) acc
  = Ok (acc - ssum (take m (drop k
            (zip_with (fun out c => ln (nth (Z.to_nat c) out 0 + 1e-8))
               outs targets)))).
Proof.
  induction m as [|m IH]; intros k acc Hk.
  - cbn [seq for_loop take]. unfold ssum. simpl. f_equal. lra.
  - cbn [seq for_loop].
    destruct (lookup_lt_is_Some_2 outs k) as [out Hout]; [lia|].
    destruct (lookup_lt_is_Some_2 targets k) as [c Hc]; [lia|].
    rewrite (loss_body_run k acc out c Hout Hc).
    cbn [mbind result_bind]. rewrite IH by lia. f_equal.
    erewrite (drop_S _ _ k)
      by (apply lookup_zip_with_Some; eauto).
    cbn [take]. rewrite ssum_cons. lra.
Qed.

Lemma loss_run :
  for_loop (loss_body (map col outs) targets) (range (length targets)) szero
  = Ok (0 - ssum (zip_with (fun out c => ln (nth (Z.to_nat c) out 0 + 1e-8))
                    outs targets)).
Proof.
  unfold range. rewrite loss_loop_run by lia.
  by rewrite drop_0, take_ge by (rewrite length_zip_with; lia).
Qed.

(** The loss is the mean negative log-likelihood. *)
Lemma mean_nll_eq :
  targets <> [] ->
  sdiv (0 - ssum (zip_with (fun out c => ln (nth (Z.to_nat c) out 0 + 1e-8))
                    outs targets)) (sofnat (length targets))
  = mean_nll outs targets.
Proof.
  clear Houts Hts Hl. intros Hne.
  assert (length targets <> 0%nat) as Hn by (by destruct targets).
  unfold mean_nll.
  change (sdiv ?x (sofnat ?y)) with (x / INR y).
  pose proof (not_0_INR _ Hn). field. done.
Qed.

End LossFacts.

Section GradientShapes.
Context {A : Type} `{Scalar A}.
Variables (n h o : nat) (U W V b c : ndarray A).
Hypothesis HU : has_shape U h n.
Hypothesis HW : has_shape W h h.
Hypothesis HV : has_shape V o h.
Hypothesis Hb : has_shape b h 1.
Hypothesis Hc : has_shape c o 1.

Lemma output_errors_lengths (outs : list (list A)) (targets : list Z) :
  Forall (fun y => length y = o) outs ->
  Forall (fun y => length y = o) (output_errors o outs targets).
Proof.
  intros Houts. rewrite Forall_forall in Houts.
  apply Forall_forall. intros y Hy.
  apply list_elem_of_lookup in Hy as (i & Hi).
  apply lookup_zip_with_Some in Hi as (out & k & -> & Ho' & _).
  apply length_dy_of, Houts. eapply list_elem_of_lookup_2; eauto.
Qed.

Lemma hidden_errors_lengths (dys hs : list (list A)) :
  Forall (fun s => length s = h) hs ->
  Forall (fun d => length d = h) (hidden_errors h W V dys hs).
Proof.
  intros Hhs. rewrite Forall_forall in Hhs.
  eapply deltas_lengths; eauto.
  apply Forall_forall. intros [dy hn] Hin.
  apply elem_of_zip_r in Hin. cbn [snd]. apply Hhs.
  destruct hs; [done|]. cbn [tail] in Hin. by right.
Qed.

Lemma outputs_of_lengths (xs : list (list A)) :
  Forall (fun y => length y = o) (outputs_of h U W V b c xs).
Proof.
  apply Forall_forall. intros y Hy.
  apply list_elem_of_fmap in Hy as (s & -> & _).
  eapply length_readout; eauto.
Qed.

Lemma trajectory_lengths (xs : list (list A)) :
  Forall (fun s => length s = h) (trajectory h U W b xs).
Proof.
  apply Forall_forall. intros s Hs.
  apply list_elem_of_lookup in Hs as (i & Hi).
  eapply (trajectory_length_at n h U W b HU HW Hb); eauto.
Qed.

End GradientShapes.

(** [train_step] on well-shaped arguments, from the trajectory, outputs and
    gradients of the description. *)
Lemma train_step_run (n h o : nat) (U W V b c : ndarray R)
    (xs : list (list R)) (targets : list Z) (learning_rate : R) :
  has_shape U h n -> has_shape W h h -> has_shape V o h ->
  has_shape b h 1 -> has_shape c o 1 -> 0 < o ->
  Forall (fun x => length x = n) xs ->
  Forall (fun k => (0 <= k < Z.of_nat o)%Z) targets ->
  length targets = length xs ->
  xs <> [] ->
  let outs := outputs_of h U W V b c xs in
  let hs := trajectory h U W b xs in
  let dys := output_errors o outs targets in
  let ds := hidden_errors h W V dys hs in
  forward h (map col xs) U W V b c = Ok (map col outs, map col hs) /\
  backward (map col xs) (map col outs) (map col hs) targets U W V b c
  = Ok (NdArray n (msum h n (zip_with outer ds xs)),
        NdArray h (msum h h (zip_with outer ds hs)),
        NdArray h (msum o h (zip_with outer dys (tail hs))),
        col (vsum h ds), col (vsum o dys)) /\
  train_step h (map col xs) targets U W V b c learning_rate
  = Ok (descend learning_rate U (NdArray n (msum h n (zip_with outer ds xs))),
        descend learning_rate W (NdArray h (msum h h (zip_with outer ds hs))),
        descend learning_rate V (NdArray h (msum o h (zip_with outer dys (tail hs)))),
        descend learning_rate b (col (vsum h ds)),
        descend learning_rate c (col (vsum o dys)),
        mean_nll outs targets).
Proof.
  intros HU HW HV Hb Hc Ho Hxs Hts Hlt Hne outs hs dys ds.
  assert (forward h (map col xs) U W V b c = Ok (map col outs, map col hs)) as Hfwd
    by (by apply (forward_run n h o)).
  assert (Forall (fun y => length y = o) outs) as Houts
    by (eapply outputs_of_lengths; eauto).
  assert (Forall (fun s => length s = h) hs) as Hhs
    by (eapply trajectory_lengths; eauto).
  assert (length outs = length xs) as Hlo
    by (unfold outs, outputs_of; by rewrite length_map, length_hidden_from).
  assert (length hs = S (length xs)) as Hlh by apply length_trajectory.
  pose proof (backward_run R_sadd_comm R_sadd_0_r n h o U W V b c HU HW HV
                xs outs hs targets Hxs Houts Hhs Hts Hlo Hlt Hlh Hb Hc) as Hbwd.
  unfold bptt in Hbwd. fold dys ds in Hbwd.
  assert (Forall (fun y => length y = o) dys) as Hdys
    by (by apply output_errors_lengths).
  assert (Forall (fun d => length d = h) ds) as Hds
    by (eapply hidden_errors_lengths; eauto).
  split; [exact Hfwd|]. split; [exact Hbwd|].
  unfold train_step. rewrite Hfwd. cbn [mbind result_bind]. rewrite Hbwd.
  cbn [mbind result_bind].
  destruct HU as (HUr & HUc & _), HW as (HWr & HWc & _), HV as (HVr & HVc & _).
  destruct Hb as (Hbr & Hbc & _), Hc as (Hcr & Hcc & _).
  rewrite np_sub_descend
    by (rewrite ?length_msum; try done; by apply outer_lengths).
  cbn [mbind result_bind].
  rewrite np_sub_descend
    by (rewrite ?length_msum; try done; by apply outer_lengths).
  cbn [mbind result_bind].
  rewrite np_sub_descend
    by (rewrite ?length_msum; try done; by apply outer_lengths).
  cbn [mbind result_bind].
  rewrite np_sub_descend_col by (rewrite ?length_vsum; done).
  cbn [mbind result_bind].
  rewrite np_sub_descend_col by (rewrite ?length_vsum; done).
  cbn [mbind result_bind].
  rewrite (loss_run o outs targets Houts Hts ltac:(lia)).
  cbn [mbind result_bind].
  assert (targets <> []) as Hnt by (intros ->; destruct xs; simpl in *; done).
  rewrite decide_False by (by destruct targets).
  by rewrite mean_nll_eq by done.
Qed.


(** ** Sequences without inputs *)

Section Empty.
Context {A : Type} `{Scalar A}.

Lemma np_setitem_zeros (r m : nat) (l : list (ndarray A)) (i : nat) :
  i < length l ->
  np_setitem r m l i (np_zeros r m) = Ok (<[i := np_zeros r m]> l).
Proof.
  intros Hi. unfold np_setitem. rewrite decide_True by done.
  assert (nrows (np_zeros r m) = r) as Hr
    by (unfold nrows, np_zeros; cbn [rows]; apply length_replicate).
  pose proof (fits_same (np_zeros r m)) as Hf.
  pose proof (stretch_same (np_zeros r m)) as Hs.
  rewrite Hr in Hf, Hs. cbn [ncols np_zeros] in Hf, Hs. by rewrite Hf, Hs.
Qed.

Lemma forward_empty (hidden_size : nat) (U W V b c : ndarray A) :
  forward hidden_size [] U W V b c = Ok ([], [np_zeros hidden_size 1]).
Proof.
  unfold forward. cbn [length Nat.add replicate].
  rewrite np_setitem_zeros by (simpl; lia). done.
Qed.

Lemma backward_empty (outputs : list (ndarray A)) (s : ndarray A)
    (hidden_states : list (ndarray A)) (targets : list Z) (U W V b c : ndarray A) :
  backward [] outputs (s :: hidden_states) targets U W V b c
  = Ok (np_zeros_like U, np_zeros_like W, np_zeros_like V,
        np_zeros_like b, np_zeros_like c).
Proof. done. Qed.

End Empty.

(** C5 (as the code behaves).  On a sequence without inputs nothing is
    raised: [forward] returns no output and a trajectory that holds the zero
    initial state only, and [backward], given a trajectory with at least its
    initial state, returns zero gradients of the shapes of the parameters. *)
Theorem empty_sequence_accepted {A : Type} `{Scalar A} (hidden_size : nat)
    (U W V b c : ndarray A) :
  forward hidden_size [] U W V b c = Ok ([], [np_zeros hidden_size 1]) /\
  forall outputs s hidden_states targets,
    backward [] outputs (s :: hidden_states) targets U W V b c
    = Ok (np_zeros_like U, np_zeros_like W, np_zeros_like V,
          np_zeros_like b, np_zeros_like c).
Proof. split; [apply forward_empty | intros; apply backward_empty]. Qed.

(** C5 fails on the code: with one hidden unit, inputs of width one and two
    classes, [forward] on the empty sequence and [backward] on its results
    return normally instead of raising. *)
Lemma empty_sequence_not_rejected :
  forward 1 [] Toy.U Toy.W Toy.V Toy.b Toy.c = Ok ([], [np_zeros 1 1]) /\
  backward [] [] [np_zeros 1 1] [] Toy.U Toy.W Toy.V Toy.b Toy.c
  = Ok (Toy.U, Toy.W, Toy.V, Toy.b, Toy.c) /\
  (forall e, forward 1 [] Toy.U Toy.W Toy.V Toy.b Toy.c <> Raise e) /\
  (forall e,
     backward [] [] [np_zeros 1 1] [] Toy.U Toy.W Toy.V Toy.b Toy.c <> Raise e).
Proof.
  assert (forward 1 [] Toy.U Toy.W Toy.V Toy.b Toy.c = Ok ([], [np_zeros 1 1]))
    as Hf by apply forward_empty.
  assert (backward [] [] [np_zeros 1 1] [] Toy.U Toy.W Toy.V Toy.b Toy.c
          = Ok (Toy.U, Toy.W, Toy.V, Toy.b, Toy.c)) as Hb by reflexivity.
  repeat split; try done; intros e; by rewrite ?Hf, ?Hb.
Qed.

(** ** What [forward] can raise *)

Section Failures.
Context {A : Type} `{Scalar A}.

Lemma np_dot_Raise (a b : ndarray A) (e : exn) :
  np_dot a b = Raise e -> e = ValueError.
Proof. unfold np_dot. destruct (ncols a =? nrows b); congruence. Qed.

Lemma np_dot_Ok (a b r : ndarray A) :
  np_dot a b = Ok r -> ncols a = nrows b.
Proof.
  unfold np_dot. destruct (Nat.eqb_spec (ncols a) (nrows b)); congruence.
Qed.

Lemma ewise_Raise (f : A -> A -> A) (a b : ndarray A) (e : exn) :
  ewise f a b = Raise e -> e = ValueError.
Proof.
  unfold ewise.
  destruct (bdim (nrows a) (nrows b)), (bdim (ncols a) (ncols b)); congruence.
Qed.

Lemma softmax_Raise (x : ndarray A) (e : exn) :
  softmax x = Raise e -> e = ValueError.
Proof.
  unfold softmax, np_max. destruct (entries x); simpl; congruence.
Qed.

Lemma np_setitem_Raise (r m : nat) (l : list (ndarray A)) (i : nat)
    (x : ndarray A) (e : exn) :
  i < length l -> np_setitem r m l i x = Raise e -> e = ValueError.
Proof.
  intros Hi. unfold np_setitem. rewrite decide_True by done.
  destruct (fits x r m); congruence.
Qed.

Lemma np_setitem_Ok (r m : nat) (l l' : list (ndarray A)) (i : nat) (x : ndarray A) :
  np_setitem r m l i x = Ok l' ->
  i < length l /\ l' = <[i := NdArray m (stretch x r m)]> l.
Proof.
  unfold np_setitem. destruct (decide (i < length l)); [|congruence].
  destruct (fits x r m); [|congruence]. intros [= <-]. done.
Qed.

Lemma py_get_Ok {X : Type} (l : list X) (i : nat) (x : X) :
  py_get l i = Ok x -> l !! i = Some x.
Proof. unfold py_get. destruct (l !! i); congruence. Qed.

Lemma py_get_lt {X : Type} (l : list X) (i : nat) :
  i < length l -> exists x, py_get l i = Ok x /\ l !! i = Some x.
Proof.
  intros Hi. destruct (lookup_lt_is_Some_2 l i Hi) as [x Hx].
  exists x. split; [by apply py_get_lookup | done].
Qed.

(** One iteration either raises [ValueError] or returns, and it returns
    only if the input of the step has as many rows as [U] has columns;
    the trajectory keeps its length. *)
Lemma forward_body_cases (hidden_size : nat) (inputs : list (ndarray A))
    (U W V b c : ndarray A) (outs hs : list (ndarray A)) (t : nat) (x : ndarray A) :
  inputs !! t = Some x -> t + 1 < length hs ->
  forward_body hidden_size inputs U W V b c (outs, hs) t = Raise ValueError \/
  exists outs' hs',
    forward_body hidden_size inputs U W V b c (outs, hs) t = Ok (outs', hs') /\
    nrows x = ncols U /\ length hs' = length hs.
Proof.
  intros Hx Ht. unfold forward_body.
  rewrite (py_get_lookup _ _ _ Hx). cbn [mbind result_bind].
  destruct (np_dot U x) as [ux|e] eqn:Eux; cbn [mbind result_bind];
    [|apply np_dot_Raise in Eux as ->; by left].
  apply np_dot_Ok in Eux.
  destruct (py_get_lt hs t ltac:(lia)) as (hp & -> & _). cbn [mbind result_bind].
  destruct (np_dot W hp) as [wh|e] eqn:Ewh; cbn [mbind result_bind];
    [|apply np_dot_Raise in Ewh as ->; by left].
  destruct (np_add ux wh) as [s|e] eqn:Es; cbn [mbind result_bind];
    [|apply ewise_Raise in Es as ->; by left].
  destruct (np_add s b) as [s'|e] eqn:Es'; cbn [mbind result_bind];
    [|apply ewise_Raise in Es' as ->; by left].
  destruct (np_setitem hidden_size 1 hs (t + 1) (np_map stanh s')) as [hs'|e] eqn:Ehs;
    cbn [mbind result_bind];
    [|apply np_setitem_Raise in Ehs as ->; [by left | done]].
  apply np_setitem_Ok in Ehs as (_ & ->).
  destruct (py_get_lt (<[t + 1 := NdArray 1 (stretch (np_map stanh s') hidden_size 1)]> hs)
              (t + 1)) as (hn & -> & _); [by rewrite length_insert|].
  cbn [mbind result_bind].
  destruct (np_dot V hn) as [vh|e] eqn:Evh; cbn [mbind result_bind];
    [|apply np_dot_Raise in Evh as ->; by left].
  destruct (np_add vh c) as [z|e] eqn:Ez; cbn [mbind result_bind];
    [|apply ewise_Raise in Ez as ->; by left].
  destruct (softmax z) as [y|e] eqn:Ey; cbn [mbind result_bind];
    [|apply softmax_Raise in Ey as ->; by left].
  right. eexists _, _. split; [done|]. split; [done|]. apply length_insert.
Qed.

Lemma forward_loop_cases (hidden_size : nat) (inputs : list (ndarray A))
    (U W V b c : ndarray A) (m : nat) : forall (k : nat) (outs hs : list (ndarray A)),
  k + m <= length inputs -> length hs = length inputs + 1 ->
  for_loop (forward_body hidden_size inputs U W V b c) (seq k m) (outs, hs)
  = Raise ValueError \/
  (exists st, for_loop (forward_body hidden_size inputs U W V b c) (seq k m) (outs, hs)
              = Ok st) /\
  forall t x, k <= t < k + m -> inputs !! t = Some x -> nrows x = ncols U.
Proof.
  induction m as [|m IH]; intros k outs hs Hk Hl; cbn [seq for_loop].
  - right. split; [eauto | intros; lia].
  - destruct (lookup_lt_is_Some_2 inputs k ltac:(lia)) as [x Hx].
    destruct (forward_body_cases hidden_size inputs U W V b c outs hs k x Hx ltac:(lia))
      as [-> | (outs' & hs' & -> & Hmatch & Hl')]; [by left|].
    cbn [mbind result_bind].
    destruct (IH (S k) outs' hs' ltac:(lia) ltac:(lia)) as [-> | (Hok & Hall)];
      [by left|].
    right. split; [done|]. intros t y Ht Hy.
    destruct (decide (t = k)) as [-> | Hne].
    + rewrite Hx in Hy. by inversion Hy; subst.
    + apply (Hall t); [lia | done].
Qed.

End Failures.

(** C6.  Whatever the parameters, when some vector of the input sequence has
    a number of rows other than the number of columns of [U], the input
    width, [forward] does not return: it raises the error NumPy reports for
    mismatching shapes, a [ValueError]. *)
Theorem forward_rejects_mismatch {A : Type} `{Scalar A} (hidden_size : nat)
    (inputs : list (ndarray A)) (U W V b c : ndarray A) (x : ndarray A) :
  x ∈ inputs -> nrows x <> ncols U ->
  forward hidden_size inputs U W V b c = Raise ValueError.
Proof.
  intros Hx Hne. unfold forward.
  rewrite np_setitem_zeros by (rewrite length_replicate; lia).
  cbn [mbind result_bind]. unfold range.
  destruct (forward_loop_cases hidden_size inputs U W V b c (length inputs) 0 []
              (<[0 := np_zeros hidden_size 1]>
                 (replicate (length inputs + 1) (np_zeros hidden_size 1))))
    as [Hr | (_ & Hall)].
  - lia.
  - by rewrite length_insert, length_replicate.
  - exact Hr.
  - apply list_elem_of_lookup in Hx as (t & Ht).
    pose proof (lookup_lt_Some _ _ _ Ht). exfalso. apply Hne.
    apply (Hall t); [lia | done].
Qed.

(** ** The range of the hidden states *)

Section Bounded.
Context {A : Type} `{Scalar A}.
Variable Q : A -> Prop.
Hypothesis Qzero : Q szero.
Hypothesis Qtanh : forall x, Q (stanh x).

Lemma stretch_Forall (a : ndarray A) (r m : nat) :
  Forall (Forall Q) (rows a) -> Forall (Forall Q) (stretch a r m).
Proof.
  intros Ha. unfold stretch.
  assert (Forall (Forall Q)
            (if ncols a =? m then rows a
             else map (fun row => replicate m (hd szero row)) (rows a))) as Hrs.
  { destruct (ncols a =? m); [done|].
    induction Ha as [|row rs Hrow _ IH]; cbn [map]; constructor; [|done].
    apply Forall_replicate. destruct Hrow; [apply Qzero | done]. }
  destruct (nrows a =? r); [done|].
  apply Forall_replicate. destruct Hrs; [constructor | done].
Qed.

Lemma np_zeros_Forall (r m : nat) : Forall (Forall Q) (rows (np_zeros r m)).
Proof. unfold np_zeros. cbn [rows]. by do 2 apply Forall_replicate. Qed.

Lemma np_map_tanh_Forall (a : ndarray A) :
  Forall (Forall Q) (rows (np_map stanh a)).
Proof.
  unfold np_map. cbn [rows]. apply Forall_forall. intros r Hr.
  apply list_elem_of_fmap in Hr as (r' & -> & _).
  apply Forall_forall. intros x Hx.
  apply list_elem_of_fmap in Hx as (x' & -> & _). apply Qtanh.
Qed.

(** Every iteration keeps the entries of the trajectory within [Q]. *)
Lemma forward_body_Forall (hidden_size : nat) (inputs : list (ndarray A))
    (U W V b c : ndarray A) (st st' : list (ndarray A) * list (ndarray A)) (t : nat) :
  Forall (fun s => Forall (Forall Q) (rows s)) st.2 ->
  forward_body hidden_size inputs U W V b c st t = Ok st' ->
  Forall (fun s => Forall (Forall Q) (rows s)) st'.2.
Proof.
  destruct st as [outs hs]. cbn [snd]. intros Hhs. unfold forward_body.
  intros Hrun.
  apply bind_Ok in Hrun as (x & _ & Hrun).
  apply bind_Ok in Hrun as (ux & _ & Hrun).
  apply bind_Ok in Hrun as (hp & _ & Hrun).
  apply bind_Ok in Hrun as (wh & _ & Hrun).
  apply bind_Ok in Hrun as (s & _ & Hrun).
  apply bind_Ok in Hrun as (s' & _ & Hrun).
  apply bind_Ok in Hrun as (hs' & Hset & Hrun).
  apply bind_Ok in Hrun as (hn & _ & Hrun).
  apply bind_Ok in Hrun as (vh & _ & Hrun).
  apply bind_Ok in Hrun as (z & _ & Hrun).
  apply bind_Ok in Hrun as (y & _ & Hrun).
  inversion Hrun; subst. cbn [snd].
  apply np_setitem_Ok in Hset as (_ & ->).
  apply Forall_insert; [done|]. cbn [rows].
  apply stretch_Forall, np_map_tanh_Forall.
Qed.

Lemma forward_Forall (hidden_size : nat) (inputs : list (ndarray A))
    (U W V b c : ndarray A) (outputs hidden_states : list (ndarray A)) :
  forward hidden_size inputs U W V b c = Ok (outputs, hidden_states) ->
  Forall (fun s => Forall Q (entries s)) hidden_states.
Proof.
  unfold forward. intros Hrun. apply bind_Ok in Hrun as (hs0 & Hset & Hrun).
  apply np_setitem_Ok in Hset as (_ & ->).
  eapply (for_loop_invariant
            (fun st => Forall (fun s => Forall (Forall Q) (rows s)) st.2)) in Hrun.
  - cbn [snd] in Hrun. eapply Forall_impl; [exact Hrun|].
    intros s Hs. unfold entries. by apply Forall_concat.
  - intros st i st' Hst Hbody. eapply forward_body_Forall; eauto.
  - cbn [snd]. apply Forall_insert.
    + apply Forall_replicate, np_zeros_Forall.
    + cbn [rows]. apply stretch_Forall, np_zeros_Forall.
Qed.

End Bounded.

Lemma tanh_bounded (x : R) : (-1 <= tanh x <= 1)%R.
Proof.
  unfold tanh, sinh, cosh.
  pose proof (exp_pos x) as Ha. pose proof (exp_pos (- x)) as Hb.
  set (a := exp x) in *. set (d := exp (- x)) in *.
  replace ((a - d) / 2 / ((a + d) / 2))%R with ((a - d) / (a + d))%R
    by (field; lra).
  assert (0 < / (a + d))%R as Hq by (apply Rinv_0_lt_compat; lra).
  pose proof (Rmult_lt_0_compat _ _ Ha Hq) as Hp.
  pose proof (Rmult_lt_0_compat _ _ Hb Hq) as Hr.
  assert ((a + d) * / (a + d) = 1)%R as Hone by (apply Rinv_r; lra).
  unfold Rdiv. lra.
Qed.

(** ** In-place updates only touch fresh objects *)

Section Frames.
Import Heap.
Context {A : Type}.
Implicit Types σ : heap A.

Lemma agree_refl (n : nat) σ : agree n σ σ.
Proof. split; [lia | done]. Qed.

Lemma agree_trans (n : nat) σ1 σ2 σ3 :
  agree n σ1 σ2 -> agree n σ2 σ3 -> agree n σ1 σ3.
Proof.
  intros [Hl1 H1] [Hl2 H2]. split; [lia|].
  intros l Hl. by rewrite H2, H1.
Qed.

Lemma safe_weaken {X : Type} (n : nat) (m : M A X) (Ψ Φ : X -> Prop) :
  safe n m Ψ -> (forall x, Ψ x -> Φ x) -> safe n m Φ.
Proof. intros Hm HΦ σ Hσ. destruct (Hm σ Hσ) as [Ha Hr]. split; eauto. Qed.

Lemma safe_ret {X : Type} (n : nat) (x : X) (Φ : X -> Prop) :
  Φ x -> safe n (ret (A:=A) x) Φ.
Proof.
  intros Hx σ Hσ. split; [apply agree_refl|]. simpl. by intros ? [= <-].
Qed.

Lemma safe_lift {X : Type} (n : nat) (r : result X) :
  safe n (lift (A:=A) r) (fun _ => True).
Proof. intros σ Hσ. split; [apply agree_refl | done]. Qed.

Lemma safe_bind {X Y : Type} (n : nat) (m : M A X) (k : X -> M A Y)
    (Ψ : X -> Prop) (Φ : Y -> Prop) :
  safe n m Ψ -> (forall x, Ψ x -> safe n (k x) Φ) -> safe n (bind m k) Φ.
Proof.
  intros Hm Hk σ Hσ. destruct (Hm σ Hσ) as [Ha Hr]. unfold bind.
  destruct (m σ) as [[x|e] σ1]; cbn [fst snd] in *.
  - destruct (Hk x (Hr x eq_refl) σ1) as [Ha' Hr']; [destruct Ha; lia|].
    split; [by eapply agree_trans | done].
  - split; [done | intros ? [=]].
Qed.

Lemma safe_load (n : nat) (l : loc) : safe n (load (A:=A) l) (fun _ => True).
Proof.
  intros σ Hσ. unfold load.
  destruct (σ !! l); cbn [fst snd]; (split; [apply agree_refl | done]).
Qed.

(** A new object lies above every location of the heap. *)
Lemma safe_alloc (n : nat) (o : obj A) : safe n (alloc o) (fun l => n <= l).
Proof.
  intros σ Hσ. unfold alloc. cbn [fst snd]. split.
  - split; [rewrite length_app; lia|].
    intros l Hl. apply lookup_app_l. lia.
  - by intros ? [= <-].
Qed.

(** Writing above [n] keeps the objects below [n]. *)
Lemma safe_store (n : nat) (l : loc) (o : obj A) :
  n <= l -> safe n (store l o) (fun _ => True).
Proof.
  intros Hl σ Hσ. unfold store. destruct (decide (l < length σ)); cbn [fst snd].
  - split; [|done]. split; [by rewrite length_insert|].
    intros l' Hl'. apply list_lookup_insert_ne. lia.
  - split; [apply agree_refl | done].
Qed.

End Frames.

Ltac safe_bind_with lem := eapply safe_bind; [apply lem | intros ? ?].

Section FramesRNN.
Import Heap HeapRNN.
Context {A : Type} `{Scalar A}.

Lemma safe_load_array (n : nat) (l : loc) :
  safe n (load_array (A:=A) l) (fun _ => True).
Proof.
  unfold load_array. safe_bind_with (safe_load (A:=A)).
  destruct x; first [by apply safe_ret | apply safe_lift].
Qed.

Lemma safe_getitem3 (n : nat) (l : loc) (i : nat) :
  safe n (getitem3 (A:=A) l i) (fun _ => True).
Proof.
  unfold getitem3. safe_bind_with (safe_load (A:=A)).
  destruct x; apply safe_lift.
Qed.

Lemma safe_getitem_list (n : nat) (l : loc) (i : nat) :
  safe n (getitem_list (A:=A) l i) (fun _ => True).
Proof.
  unfold getitem_list. safe_bind_with (safe_load (A:=A)).
  destruct x; apply safe_lift.
Qed.

Lemma safe_setitem3 (n r m : nat) (l : loc) (i : nat) (b : ndarray A) :
  n <= l -> safe n (setitem3 r m l i b) (fun _ => True).
Proof.
  intros Hl. unfold setitem3. safe_bind_with (safe_load (A:=A)).
  destruct x; try apply safe_lift.
  eapply safe_bind; [apply safe_lift | intros ? _]. by apply safe_store.
Qed.

Lemma safe_append (n : nat) (l : loc) (x : ndarray A) :
  n <= l -> safe n (append l x) (fun _ => True).
Proof.
  intros Hl. unfold append. safe_bind_with (safe_load (A:=A)).
  destruct x0; try apply safe_lift. by apply safe_store.
Qed.

Lemma safe_setrow (n : nat) (l : loc) (k : Z) (x : A) :
  n <= l -> safe n (setrow l k x) (fun _ => True).
Proof.
  intros Hl. unfold setrow. safe_bind_with safe_load_array.
  eapply safe_bind; [apply safe_lift | intros ? _]. by apply safe_store.
Qed.

Lemma safe_iadd (n : nat) (l : loc) (b : ndarray A) :
  n <= l -> safe n (iadd l b) (fun _ => True).
Proof.
  intros Hl. unfold iadd. safe_bind_with safe_load_array.
  eapply safe_bind; [apply safe_lift | intros ? _]. by apply safe_store.
Qed.

Lemma safe_for_loop {S I : Type} (n : nat) (body : S -> I -> M A S) (its : list I) :
  (forall s i, safe n (body s i) (fun _ => True)) ->
  forall s, safe n (for_loop body its s) (fun _ => True).
Proof.
  intros Hbody. induction its as [|i its IH]; intros s; cbn [for_loop].
  - by apply safe_ret.
  - eapply safe_bind; [apply Hbody | intros ? _; apply IH].
Qed.

End FramesRNN.

(** The steps of a computation, one rule each. *)
Ltac safe_step :=
  first
    [ apply safe_lift
    | apply safe_load_array
    | apply safe_getitem3
    | apply safe_getitem_list
    | apply safe_setitem3; cbv beta in *; lia
    | apply safe_append; cbv beta in *; lia
    | apply safe_setrow; cbv beta in *; lia
    | apply safe_iadd; cbv beta in *; lia
    | apply safe_alloc
    | by apply safe_ret ].

Ltac safe_run := repeat (first [ safe_step | eapply safe_bind; [safe_step | intros ? ?] ]).

Section FrameRNN.
Import Heap HeapRNN.
Context {A : Type} `{Scalar A}.

Lemma safe_forward (n hidden_size : nat) (inputs : list (ndarray A))
    (pU pW pV pb pc : loc) :
  safe n (forward hidden_size inputs pU pW pV pb pc) (fun _ => True).
Proof.
  unfold forward.
  eapply safe_bind; [apply safe_alloc | intros hs Hhs].
  eapply safe_bind; [apply safe_alloc | intros outs Houts].
  cbv beta in Hhs, Houts.
  eapply safe_bind; [apply safe_setitem3; lia | intros _ _].
  eapply safe_bind; [|intros _ _; by apply safe_ret].
  apply safe_for_loop. intros [] t. unfold forward_body. safe_run.
Qed.

Lemma safe_backward (n : nat) (inputs : list (ndarray A)) (outputs hidden_states : loc)
    (targets : list Z) (pU pW pV pb pc : loc) :
  safe n (backward inputs outputs hidden_states targets pU pW pV pb pc)
    (fun _ => True).
Proof.
  unfold backward.
  eapply safe_bind; [apply safe_load_array | intros U _].
  eapply safe_bind; [apply safe_alloc | intros dU HdU].
  eapply safe_bind; [apply safe_load_array | intros W _].
  eapply safe_bind; [apply safe_alloc | intros dW HdW].
  eapply safe_bind; [apply safe_load_array | intros V _].
  eapply safe_bind; [apply safe_alloc | intros dV HdV].
  eapply safe_bind; [apply safe_load_array | intros b _].
  eapply safe_bind; [apply safe_alloc | intros db Hdb].
  eapply safe_bind; [apply safe_load_array | intros c _].
  eapply safe_bind; [apply safe_alloc | intros dc Hdc].
  eapply safe_bind; [apply safe_getitem3 | intros h0 _].
  cbv beta in HdU, HdW, HdV, Hdb, Hdc.
  eapply safe_bind; [|intros _ _; by apply safe_ret].
  apply safe_for_loop. intros dh_next t. unfold backward_body. safe_run.
Qed.

End FrameRNN.

(** C7.  Run on any heap, with any arguments, [forward] and [backward]
    leave every object of that heap as it was, in particular the five
    parameter arrays: the objects they update in place are objects they
    have created.  This holds whether they return or raise. *)
Theorem parameters_unchanged {A : Type} `{Scalar A} (hidden_size : nat)
    (inputs : list (ndarray A)) (outputs hidden_states : loc) (targets : list Z)
    (pU pW pV pb pc : loc) (σ : Heap.heap A) :
  (forall l o, σ !! l = Some o ->
     (HeapRNN.forward hidden_size inputs pU pW pV pb pc σ).2 !! l = Some o) /\
  (forall l o, σ !! l = Some o ->
     (HeapRNN.backward inputs outputs hidden_states targets pU pW pV pb pc σ).2 !! l
     = Some o).
Proof.
  split; intros l o Hl.
  - destruct (safe_forward (length σ) hidden_size inputs pU pW pV pb pc σ
                (Nat.le_refl _)) as [[_ Ha] _].
    rewrite Ha; [done | by eapply lookup_lt_Some].
  - destruct (safe_backward (length σ) inputs outputs hidden_states targets
                pU pW pV pb pc σ (Nat.le_refl _)) as [[_ Ha] _].
    rewrite Ha; [done | by eapply lookup_lt_Some].
Qed.

(** ** The generator *)

Section GeneratorFacts.
Context {A : Type} `{Scalar A}.
Context {char : Type} `{Countable char}.
Variable hidden : Type.
Variable model : nat -> hidden -> list A * hidden.
Variable init_hidden : hidden.
Variable char_to_index : gmap char nat.
Variable index_to_char : gmap nat char.
Variable rng : Type.
Variable multinomial : list A -> rng -> result (nat * rng).

Local Abbreviation body := (predict_body hidden model index_to_char rng multinomial).
Local Abbreviation run := (predict hidden model init_hidden char_to_index index_to_char rng
                   multinomial).
Local Abbreviation body_c :=
  (predict_body hidden model index_to_char (rng * nat) (counted multinomial)).
Local Abbreviation run_c :=
  (predict hidden model init_hidden char_to_index index_to_char (rng * nat)
     (counted multinomial)).

(** Every iteration appends one character. *)
Lemma predict_body_Ok (temperature : A) (text text' : list char) (i i' k : nat)
    (s s' : hidden) (g g' : rng) :
  body temperature (text, i, s, g) k = Ok (text', i', s', g') ->
  exists ch, text' = text ++ [ch].
Proof.
  unfold predict_body. destruct (model i s) as [outputs s1].
  intros Hrun. apply bind_Ok in Hrun as ([j g1] & _ & Hrun).
  apply bind_Ok in Hrun as (ch & _ & Hrun). inversion Hrun. eauto.
Qed.

Lemma predict_loop_Ok (temperature : A) (its : list nat) :
  forall st st', for_loop (body temperature) its st = Ok st' ->
  exists rest, st'.1.1.1 = st.1.1.1 ++ rest /\ length rest = length its.
Proof.
  induction its as [|k its IH]; intros st st'; cbn [for_loop].
  - intros [= <-]. exists []. by rewrite app_nil_r.
  - intros Hrun. apply bind_Ok in Hrun as (st1 & Hbody & Hrun).
    destruct st as [[[text i] s] g], st1 as [[[text1 i1] s1] g1].
    apply predict_body_Ok in Hbody as (ch & ->).
    apply IH in Hrun as (rest & Hrest & Hlen). cbn [fst] in *.
    exists (ch :: rest). rewrite Hrest, <- app_assoc. split; [done|].
    simpl. by rewrite Hlen.
Qed.

(** Whatever [predict] returns starts with the seed and has one character
    more than iterations were asked for. *)
Lemma predict_Ok (start_char : char) (predict_len : Z) (temperature : A)
    (g g' : rng) (text : list char) :
  run start_char predict_len temperature g = Ok (text, g') ->
  exists rest, text = start_char :: rest /\ length rest = Z.to_nat predict_len.
Proof.
  unfold predict. intros Hrun.
  apply bind_Ok in Hrun as (i & _ & Hrun).
  apply bind_Ok in Hrun as (st & Hloop & Hrun). inversion Hrun; subst.
  apply predict_loop_Ok in Hloop as (rest & -> & Hlen). cbn [fst].
  exists rest. split; [done|]. unfold range in Hlen. by rewrite length_seq in Hlen.
Qed.

(** Without iterations the seed alone is returned. *)
Lemma predict_nonpositive (start_char : char) (predict_len : Z) (temperature : A)
    (g : rng) :
  is_Some (char_to_index !! start_char) -> (predict_len <= 0)%Z ->
  run start_char predict_len temperature g = Ok ([start_char], g).
Proof.
  intros [i Hi] Hlen. unfold predict, dict_get. rewrite Hi.
  cbn [mbind result_bind]. replace (Z.to_nat predict_len) with 0 by lia. done.
Qed.

(** Counting the calls of the sampler changes nothing else, and there is
    one call in each iteration. *)
Lemma predict_body_counted (temperature : A) (text : list char) (i k : nat)
    (s : hidden) (g : rng) (n : nat) :
  body_c temperature (text, i, s, (g, n)) k
  = match body temperature (text, i, s, g) k with
    | Ok (text', i', s', g') => Ok (text', i', s', (g', S n))
    | Raise e => Raise e
    end.
Proof.
  unfold predict_body, counted. destruct (model i s) as [outputs s1]. cbn [fst snd].
  destruct (multinomial _ g) as [[j g1]|e]; cbn [mbind result_bind]; [|done].
  by destruct (dict_get index_to_char j).
Qed.

Lemma predict_loop_counted (temperature : A) (its : list nat) :
  forall (text : list char) (i : nat) (s : hidden) (g : rng) (n : nat),
  for_loop (body_c temperature) its (text, i, s, (g, n))
  = match for_loop (body temperature) its (text, i, s, g) with
    | Ok (text', i', s', g') => Ok (text', i', s', (g', n + length its))
    | Raise e => Raise e
    end.
Proof.
  induction its as [|k its IH]; intros text i s g n; cbn [for_loop length].
  - by rewrite Nat.add_0_r.
  - rewrite predict_body_counted.
    destruct (body temperature (text, i, s, g) k) as [[[[text1 i1] s1] g1]|e];
      cbn [mbind result_bind]; [|done].
    rewrite IH. by replace (S n + length its) with (n + S (length its)) by lia.
Qed.

Lemma predict_counted (start_char : char) (predict_len : Z) (temperature : A)
    (g : rng) (n : nat) :
  run_c start_char predict_len temperature (g, n)
  = match run start_char predict_len temperature g with
    | Ok (text, g') => Ok (text, (g', n + Z.to_nat predict_len))
    | Raise e => Raise e
    end.
Proof.
  unfold predict. destruct (dict_get char_to_index start_char) as [i|e];
    cbn [mbind result_bind]; [|done].
  rewrite predict_loop_counted.
  destruct (for_loop _ _ _) as [[[[text1 i1] s1] g1]|e];
    cbn [mbind result_bind fst snd]; [|done].
  unfold range. by rewrite length_seq.
Qed.

(** A sampler that refuses a call beyond the requested length changes
    nothing: no run calls the sampler more often. *)
Lemma predict_body_budgeted (temperature : A) (text : list char) (i k : nat)
    (s : hidden) (g : rng) (n : nat) :
  predict_body hidden model index_to_char (rng * nat) (budgeted multinomial)
    temperature (text, i, s, (g, S n)) k
  = match body temperature (text, i, s, g) k with
    | Ok (text', i', s', g') => Ok (text', i', s', (g', n))
    | Raise e => Raise e
    end.
Proof.
  unfold predict_body, budgeted. destruct (model i s) as [outputs s1]. cbn [fst snd].
  destruct (multinomial _ g) as [[j g1]|e]; cbn [mbind result_bind]; [|done].
  by destruct (dict_get index_to_char j).
Qed.

Lemma predict_loop_budgeted (temperature : A) (its : list nat) :
  forall (text : list char) (i : nat) (s : hidden) (g : rng) (n : nat),
  for_loop (predict_body hidden model index_to_char (rng * nat) (budgeted multinomial)
              temperature) its (text, i, s, (g, length its + n))
  = match for_loop (body temperature) its (text, i, s, g) with
    | Ok (text', i', s', g') => Ok (text', i', s', (g', n))
    | Raise e => Raise e
    end.
Proof.
  induction its as [|k its IH]; intros text i s g n; cbn [for_loop length]; [done|].
  cbn [Nat.add]. rewrite predict_body_budgeted.
  destruct (body temperature (text, i, s, g) k) as [[[[text1 i1] s1] g1]|e];
    cbn [mbind result_bind]; [|done].
  apply IH.
Qed.

Lemma predict_budgeted (start_char : char) (predict_len : Z) (temperature : A)
    (g : rng) :
  predict hidden model init_hidden char_to_index index_to_char (rng * nat)
    (budgeted multinomial) start_char predict_len temperature (g, Z.to_nat predict_len)
  = match run start_char predict_len temperature g with
    | Ok (text, g') => Ok (text, (g', 0))
    | Raise e => Raise e
    end.
Proof.
  unfold predict. destruct (dict_get char_to_index start_char) as [i|e];
    cbn [mbind result_bind]; [|done].
  pose proof (predict_loop_budgeted temperature (range (Z.to_nat predict_len))
                [start_char] i init_hidden g 0) as Hloop.
  unfold range in Hloop at 2. rewrite length_seq, Nat.add_0_r in Hloop.
  rewrite Hloop.
  destruct (for_loop (body temperature) _ _) as [[[[text1 i1] s1] g1]|e];
    cbn [mbind result_bind fst snd]; done.
Qed.

(** A run fails on the seed or in the sampler only, given that the
    dictionary knows the indices the sampler returns. *)
Section Failure.
Hypothesis Hknown : forall p g i g',
  multinomial p g = Ok (i, g') -> is_Some (index_to_char !! i).

Lemma predict_body_Raise (temperature : A) (st : list char * nat * hidden * rng)
    (k : nat) (e : exn) :
  body temperature st k = Raise e -> exists p g, multinomial p g = Raise e.
Proof.
  destruct st as [[[text i] s] g]. unfold predict_body.
  destruct (model i s) as [outputs s1].
  destruct (multinomial _ g) as [[j g1]|e'] eqn:Hm; cbn [mbind result_bind].
  - destruct (Hknown _ _ _ _ Hm) as [ch Hch]. unfold dict_get. by rewrite Hch.
  - intros [= <-]. eauto.
Qed.

Lemma predict_loop_Raise (temperature : A) (its : list nat) (e : exn) :
  forall st, for_loop (body temperature) its st = Raise e ->
  exists p g, multinomial p g = Raise e.
Proof.
  induction its as [|k its IH]; intros st; cbn [for_loop]; [done|].
  intros Hrun. apply bind_Raise in Hrun as [Hbody | (st1 & _ & Hrun)].
  - by eapply predict_body_Raise.
  - by eapply IH.
Qed.

Lemma predict_Raise (start_char : char) (predict_len : Z) (temperature : A)
    (g : rng) (e : exn) :
  run start_char predict_len temperature g = Raise e ->
  (char_to_index !! start_char = None /\ e = KeyError) \/
  exists p g', multinomial p g' = Raise e.
Proof.
  unfold predict, dict_get. destruct (char_to_index !! start_char) as [i|].
  - cbn [mbind result_bind]. intros Hrun.
    apply bind_Raise in Hrun as [Hloop | (st & _ & Hrun)]; [|done].
    right. by eapply predict_loop_Raise.
  - cbn [mbind result_bind]. intros [= <-]. by left.
Qed.

End Failure.

End GeneratorFacts.

Section GeneratorRuns.
Context {A : Type} `{Scalar A}.
Context {char : Type} `{Countable char}.
Variable hidden : Type.
Variable model : nat -> hidden -> list A * hidden.
Variable init_hidden : hidden.
Variable char_to_index : gmap char nat.
Variable index_to_char : gmap nat char.
Variable rng : Type.
Variable multinomial : list A -> rng -> result (nat * rng).

Local Abbreviation body := (predict_body hidden model index_to_char rng multinomial).
Local Abbreviation run := (predict hidden model init_hidden char_to_index index_to_char rng
                   multinomial).

(** An iteration fails in the sampler, or on an index that the sampler
    returns and the dictionary does not know. *)
Lemma predict_body_fails (temperature : A) (st : list char * nat * hidden * rng)
    (k : nat) (e : exn) :
  body temperature st k = Raise e ->
  (exists p g, multinomial p g = Raise e) \/
  (e = KeyError /\
   exists p g i g', multinomial p g = Ok (i, g') /\ index_to_char !! i = None).
Proof.
  destruct st as [[[text i] s] g]. unfold predict_body.
  destruct (model i s) as [outputs s1].
  destruct (multinomial _ g) as [[j g1]|e'] eqn:Hm; cbn [mbind result_bind].
  - unfold dict_get. destruct (index_to_char !! j) as [ch|] eqn:Hj;
      cbn [mbind result_bind]; [done|].
    intros [= <-]. right. split; [done|]. eauto 6.
  - intros [= <-]. left. eauto.
Qed.

Lemma predict_loop_fails (temperature : A) (its : list nat) (e : exn) :
  forall st, for_loop (body temperature) its st = Raise e ->
  (exists p g, multinomial p g = Raise e) \/
  (e = KeyError /\
   exists p g i g', multinomial p g = Ok (i, g') /\ index_to_char !! i = None).
Proof.
  induction its as [|k its IH]; intros st; cbn [for_loop]; [done|].
  intros Hrun. apply bind_Raise in Hrun as [Hbody | (st1 & _ & Hrun)].
  - by eapply predict_body_fails.
  - by eapply IH.
Qed.

Lemma predict_fails (start_char : char) (predict_len : Z) (temperature : A)
    (g : rng) (e : exn) :
  is_Some (char_to_index !! start_char) ->
  run start_char predict_len temperature g = Raise e ->
  (exists p g', multinomial p g' = Raise e) \/
  (e = KeyError /\
   exists p g' i g'', multinomial p g' = Ok (i, g'') /\ index_to_char !! i = None).
Proof.
  intros [i Hi]. unfold predict, dict_get. rewrite Hi. cbn [mbind result_bind].
  intros Hrun. apply bind_Raise in Hrun as [Hloop | (st & _ & Hrun)]; [|done].
  by eapply predict_loop_fails.
Qed.

(** When the sampler draws a known index from every vector it accepts, and
    accepts the probabilities of every step, no iteration fails. *)
Section Accepted.
Variable accepted : list A -> Prop.
Variable temperature : A.
Hypothesis Hmodel : forall i s,
  accepted (softmax_vec (map (fun v => sdiv v temperature) (model i s).1)).
Hypothesis Hsampler : forall p g,
  accepted p ->
  exists i g', multinomial p g = Ok (i, g') /\ is_Some (index_to_char !! i).

Lemma predict_body_total (st : list char * nat * hidden * rng) (k : nat) :
  exists st', body temperature st k = Ok st'.
Proof.
  destruct st as [[[text i] s] g]. unfold predict_body.
  pose proof (Hmodel i s) as Hacc. destruct (model i s) as [outputs s1].
  cbn [fst] in Hacc.
  destruct (Hsampler _ g Hacc) as (j & g1 & -> & [ch Hch]).
  cbn [mbind result_bind]. unfold dict_get. rewrite Hch. eauto.
Qed.

Lemma predict_loop_total (its : list nat) :
  forall st, exists st', for_loop (body temperature) its st = Ok st'.
Proof.
  induction its as [|k its IH]; intros st; cbn [for_loop]; [eauto|].
  destruct (predict_body_total st k) as [st1 ->].
  cbn [mbind result_bind]. apply IH.
Qed.

Lemma predict_total (start_char : char) (predict_len : Z) (g : rng) :
  is_Some (char_to_index !! start_char) ->
  exists text g', run start_char predict_len temperature g = Ok (text, g').
Proof.
  intros [i Hi]. unfold predict, dict_get. rewrite Hi. cbn [mbind result_bind].
  destruct (predict_loop_total (range (Z.to_nat predict_len))
              ([start_char], i, init_hidden, g)) as [st ->].
  cbn [mbind result_bind]. eauto.
Qed.

End Accepted.

End GeneratorRuns.



(** C9 (as the code behaves).  [predict] checks neither the requested
    length nor the temperature: for a seed of the vocabulary and a
    requested length of zero or less it returns the seed alone, whatever
    the temperature, without a sampling step; and when the dictionary knows
    every index the sampler returns, a run that fails fails with the
    [KeyError] of a seed outside the vocabulary, before any step, or with
    the error of a sampling step. *)
Theorem predict_unvalidated {A : Type} `{Scalar A} {char : Type} `{Countable char}
    (hidden : Type) (model : nat -> hidden -> list A * hidden) (init_hidden : hidden)
    (char_to_index : gmap char nat) (index_to_char : gmap nat char)
    (rng : Type) (multinomial : list A -> rng -> result (nat * rng))
    (start_char : char) (predict_len : Z) (temperature : A) (g : rng) :
  (is_Some (char_to_index !! start_char) -> (predict_len <= 0)%Z ->
   predict hidden model init_hidden char_to_index index_to_char rng multinomial
     start_char predict_len temperature g = Ok ([start_char], g)) /\
  ((forall p g i g', multinomial p g = Ok (i, g') -> is_Some (index_to_char !! i)) ->
   forall e,
     predict hidden model init_hidden char_to_index index_to_char rng multinomial
       start_char predict_len temperature g = Raise e ->
     (char_to_index !! start_char = None /\ e = KeyError) \/
     exists p g', multinomial p g' = Raise e).
Proof.
  split.
  - apply predict_nonpositive.
  - intros Hknown e. by apply predict_Raise.
Qed.

(** C9 fails on the code: a requested length of zero with temperature zero,
    and a negative length with a negative temperature, are not rejected;
    the seed is returned. *)
Lemma predict_accepts_nonpositive :
  Toy.predict "a"%char 0 0%R tt = Ok (["a"%char], tt) /\
  Toy.predict "a"%char (-3) (-1)%R tt = Ok (["a"%char], tt).
Proof. split; reflexivity. Qed.

(** ** The heap programs compute what the functions compute *)

Section HeapSteps.
Import Heap HeapRNN.
Context {A : Type} `{Scalar A}.
Implicit Types σ : heap A.

Lemma bind_lift {X Y : Type} (r : result X) (k : X -> M A Y) σ :
  bind (lift r) k σ = match r with Ok x => k x σ | Raise e => (Raise e, σ) end.
Proof. unfold bind, lift. by destruct r. Qed.

Lemma bind_run {X Y : Type} (m : M A X) (k : X -> M A Y) σ σ' (x : X) :
  m σ = (Ok x, σ') -> bind m k σ = k x σ'.
Proof. unfold bind. by intros ->. Qed.

Lemma load_array_at (l : loc) (a : ndarray A) σ :
  σ !! l = Some (OArray a) -> load_array l σ = (Ok a, σ).
Proof. intros Hl. unfold load_array, bind, load. by rewrite Hl. Qed.

Lemma getitem3_at (l : loc) (s : list (ndarray A)) (i : nat) σ :
  σ !! l = Some (OArray3 s) -> getitem3 l i σ = (py_get s i, σ).
Proof. intros Hl. unfold getitem3, bind, load. rewrite Hl. by destruct (py_get s i). Qed.

Lemma getitem_list_at (l : loc) (s : list (ndarray A)) (i : nat) σ :
  σ !! l = Some (OList s) -> getitem_list l i σ = (py_get s i, σ).
Proof.
  intros Hl. unfold getitem_list, bind, load. rewrite Hl. by destruct (py_get s i).
Qed.

Lemma store_at (l : loc) (o o' : obj A) σ :
  σ !! l = Some o -> store l o' σ = (Ok tt, <[l := o']> σ).
Proof.
  intros Hl. unfold store. rewrite decide_True; [done | by eapply lookup_lt_Some].
Qed.

Lemma setitem3_at (r m : nat) (l : loc) (s : list (ndarray A)) (i : nat)
    (b : ndarray A) σ :
  σ !! l = Some (OArray3 s) ->
  setitem3 r m l i b σ
  = match np_setitem r m s i b with
    | Ok s' => (Ok tt, <[l := OArray3 s']> σ)
    | Raise e => (Raise e, σ)
    end.
Proof.
  intros Hl. unfold setitem3. unfold bind at 1, load. rewrite Hl.
  rewrite bind_lift. destruct (np_setitem r m s i b); [|done].
  by erewrite store_at.
Qed.

Lemma append_at (l : loc) (s : list (ndarray A)) (x : ndarray A) σ :
  σ !! l = Some (OList s) -> append l x σ = (Ok tt, <[l := OList (s ++ [x])]> σ).
Proof.
  intros Hl. unfold append. unfold bind, load. rewrite Hl. by erewrite store_at.
Qed.

Lemma setrow_at (l : loc) (a : ndarray A) (k : Z) (x : A) σ :
  σ !! l = Some (OArray a) ->
  setrow l k x σ
  = match np_setrow a k x with
    | Ok a' => (Ok tt, <[l := OArray a']> σ)
    | Raise e => (Raise e, σ)
    end.
Proof.
  intros Hl. unfold setrow. erewrite bind_run by (by apply load_array_at).
  rewrite bind_lift. destruct (np_setrow a k x); [|done]. by erewrite store_at.
Qed.

Lemma iadd_at (l : loc) (a b : ndarray A) σ :
  σ !! l = Some (OArray a) ->
  iadd l b σ
  = match np_iadd a b with
    | Ok a' => (Ok tt, <[l := OArray a']> σ)
    | Raise e => (Raise e, σ)
    end.
Proof.
  intros Hl. unfold iadd. erewrite bind_run by (by apply load_array_at).
  rewrite bind_lift. destruct (np_iadd a b); [|done]. by erewrite store_at.
Qed.

Lemma bind_load_array {Y : Type} (l : loc) (a : ndarray A) (k : ndarray A -> M A Y) σ :
  σ !! l = Some (OArray a) -> bind (load_array l) k σ = k a σ.
Proof. intros Hl. by erewrite bind_run by (by apply load_array_at). Qed.

Lemma bind_getitem3 {Y : Type} (l : loc) (s : list (ndarray A)) (i : nat)
    (k : ndarray A -> M A Y) σ :
  σ !! l = Some (OArray3 s) ->
  bind (getitem3 l i) k σ
  = match py_get s i with Ok x => k x σ | Raise e => (Raise e, σ) end.
Proof. intros Hl. unfold bind at 1. by rewrite (getitem3_at _ _ _ _ Hl). Qed.

Lemma bind_getitem_list {Y : Type} (l : loc) (s : list (ndarray A)) (i : nat)
    (k : ndarray A -> M A Y) σ :
  σ !! l = Some (OList s) ->
  bind (getitem_list l i) k σ
  = match py_get s i with Ok x => k x σ | Raise e => (Raise e, σ) end.
Proof. intros Hl. unfold bind at 1. by rewrite (getitem_list_at _ _ _ _ Hl). Qed.

Lemma bind_setitem3 {Y : Type} (r m : nat) (l : loc) (s : list (ndarray A)) (i : nat)
    (b : ndarray A) (k : unit -> M A Y) σ :
  σ !! l = Some (OArray3 s) ->
  bind (setitem3 r m l i b) k σ
  = match np_setitem r m s i b with
    | Ok s' => k tt (<[l := OArray3 s']> σ)
    | Raise e => (Raise e, σ)
    end.
Proof.
  intros Hl. unfold bind at 1. rewrite (setitem3_at _ _ _ _ _ _ _ Hl).
  by destruct (np_setitem r m s i b).
Qed.

Lemma bind_setrow {Y : Type} (l : loc) (a : ndarray A) (z : Z) (x : A)
    (k : unit -> M A Y) σ :
  σ !! l = Some (OArray a) ->
  bind (setrow l z x) k σ
  = match np_setrow a z x with
    | Ok a' => k tt (<[l := OArray a']> σ)
    | Raise e => (Raise e, σ)
    end.
Proof.
  intros Hl. unfold bind at 1. rewrite (setrow_at _ _ _ _ _ Hl).
  by destruct (np_setrow a z x).
Qed.

Lemma bind_iadd {Y : Type} (l : loc) (a b : ndarray A) (k : unit -> M A Y) σ :
  σ !! l = Some (OArray a) ->
  bind (iadd l b) k σ
  = match np_iadd a b with
    | Ok a' => k tt (<[l := OArray a']> σ)
    | Raise e => (Raise e, σ)
    end.
Proof.
  intros Hl. unfold bind at 1. rewrite (iadd_at _ _ _ _ Hl).
  by destruct (np_iadd a b).
Qed.

Lemma bind_alloc {Y : Type} (o : obj A) (k : loc -> M A Y) σ :
  bind (alloc o) k σ = k (length σ) (σ ++ [o]).
Proof. done. Qed.

End HeapSteps.

Section ForwardRefines.
Import Heap.
Context {A : Type} `{Scalar A}.
Variables (hidden_size : nat) (inputs : list (ndarray A)).
Variables (pU pW pV pb pc : loc) (U W V b c : ndarray A).
Variables (outs_loc hs_loc : loc).
Implicit Types σ : heap A.

(** The parameters, the trajectory and the outputs in a heap. *)
Local Abbreviation params_at σ :=
  (σ !! pU = Some (OArray U) /\ σ !! pW = Some (OArray W) /\
   σ !! pV = Some (OArray V) /\ σ !! pb = Some (OArray b) /\
   σ !! pc = Some (OArray c)).

Lemma forward_body_refines (outs hs : list (ndarray A)) (t : nat) σ :
  params_at σ ->
  σ !! hs_loc = Some (OArray3 hs) -> σ !! outs_loc = Some (OList outs) ->
  match forward_body hidden_size inputs U W V b c (outs, hs) t with
  | Ok (outs', hs') =>
      HeapRNN.forward_body hidden_size inputs pU pW pV pb pc outs_loc hs_loc tt t σ
      = (Ok tt, <[outs_loc := OList outs']> (<[hs_loc := OArray3 hs']> σ))
  | Raise e =>
      (HeapRNN.forward_body hidden_size inputs pU pW pV pb pc outs_loc hs_loc tt t σ).1
      = Raise e
  end.
Proof.
  intros (HU & HW & HV & Hb & Hc) Hhs Houts.
  unfold forward_body, HeapRNN.forward_body.
  rewrite (bind_load_array _ _ _ _ HU), bind_lift.
  destruct (py_get inputs t) as [x|e]; cbn [mbind result_bind fst]; [|done].
  rewrite bind_lift.
  destruct (np_dot U x) as [ux|e]; cbn [mbind result_bind fst]; [|done].
  rewrite (bind_load_array _ _ _ _ HW), (bind_getitem3 _ _ _ _ _ Hhs).
  destruct (py_get hs t) as [hp|e]; cbn [mbind result_bind fst]; [|done].
  rewrite bind_lift.
  destruct (np_dot W hp) as [wh|e]; cbn [mbind result_bind fst]; [|done].
  rewrite bind_lift.
  destruct (np_add ux wh) as [s|e]; cbn [mbind result_bind fst]; [|done].
  rewrite (bind_load_array _ _ _ _ Hb), bind_lift.
  destruct (np_add s b) as [s'|e]; cbn [mbind result_bind fst]; [|done].
  rewrite (bind_setitem3 _ _ _ _ _ _ _ _ Hhs).
  destruct (np_setitem hidden_size 1 hs (t + 1) (np_map stanh s')) as [hs'|e];
    cbn [mbind result_bind fst]; [|done].
  assert (hs_loc < length σ) as Hlt by (by eapply lookup_lt_Some).
  assert (forall l a, σ !! l = Some (OArray a) ->
            <[hs_loc := OArray3 hs']> σ !! l = Some (OArray a)) as Hkeep.
  { intros l a Hl. rewrite list_lookup_insert_ne; [done|].
    intros Heq. rewrite <- Heq, Hhs in Hl. discriminate. }
  rewrite (bind_load_array _ _ _ _ (Hkeep _ _ HV)).
  rewrite (bind_getitem3 _ hs') by (by apply list_lookup_insert_eq).
  destruct (py_get hs' (t + 1)) as [hn|e]; cbn [mbind result_bind fst]; [|done].
  rewrite bind_lift.
  destruct (np_dot V hn) as [vh|e]; cbn [mbind result_bind fst]; [|done].
  rewrite (bind_load_array _ _ _ _ (Hkeep _ _ Hc)), bind_lift.
  destruct (np_add vh c) as [z|e]; cbn [mbind result_bind fst]; [|done].
  rewrite bind_lift.
  destruct (softmax z) as [y|e]; cbn [mbind result_bind fst]; [|done].
  apply append_at. rewrite list_lookup_insert_ne; [done|].
  intros Heq. rewrite <- Heq, Hhs in Houts. discriminate.
Qed.

Lemma forward_loop_refines (its : list nat) : forall (outs hs : list (ndarray A)) σ,
  params_at σ ->
  σ !! hs_loc = Some (OArray3 hs) -> σ !! outs_loc = Some (OList outs) ->
  match for_loop (forward_body hidden_size inputs U W V b c) its (outs, hs) with
  | Ok (outs', hs') =>
      exists σ',
        HeapRNN.for_loop
          (HeapRNN.forward_body hidden_size inputs pU pW pV pb pc outs_loc hs_loc)
          its tt σ = (Ok tt, σ') /\
        params_at σ' /\
        σ' !! hs_loc = Some (OArray3 hs') /\ σ' !! outs_loc = Some (OList outs')
  | Raise e =>
      (HeapRNN.for_loop
         (HeapRNN.forward_body hidden_size inputs pU pW pV pb pc outs_loc hs_loc)
         its tt σ).1 = Raise e
  end.
Proof.
  induction its as [|t its IH]; intros outs hs σ Hp Hhs Houts;
    cbn [for_loop HeapRNN.for_loop].
  - exists σ. done.
  - pose proof (forward_body_refines outs hs t σ Hp Hhs Houts) as Hbody.
    destruct (forward_body hidden_size inputs U W V b c (outs, hs) t)
      as [[outs1 hs1]|e]; cbn [mbind result_bind].
    + erewrite bind_run by exact Hbody.
      assert (hs_loc < length σ) as Hlt1 by (by eapply lookup_lt_Some).
      assert (outs_loc < length σ) as Hlt2 by (by eapply lookup_lt_Some).
      assert (hs_loc <> outs_loc) as Hne
        by (intros Heq; rewrite <- Heq, Hhs in Houts; discriminate).
      assert (forall l a, σ !! l = Some (OArray a) ->
                <[outs_loc := OList outs1]> (<[hs_loc := OArray3 hs1]> σ) !! l
                = Some (OArray a)) as Hkeep.
      { intros l a Hl.
        rewrite !list_lookup_insert_ne; [done | |]; intros Heq.
        - rewrite <- Heq, Hhs in Hl. discriminate.
        - rewrite <- Heq, Houts in Hl. discriminate. }
      destruct Hp as (HU & HW & HV & Hb & Hc).
      apply IH.
      * repeat split; by apply Hkeep.
      * rewrite list_lookup_insert_ne by done. by apply list_lookup_insert_eq.
      * apply list_lookup_insert_eq. by rewrite length_insert.
    + unfold bind.
      destruct (HeapRNN.forward_body hidden_size inputs pU pW pV pb pc outs_loc
                  hs_loc tt t σ) as [[[]|e'] σ']; cbn [fst] in *; congruence.
Qed.

End ForwardRefines.

(** On a heap that holds the parameters, the heap program [forward] returns
    what the function [forward] returns: the locations of two new objects
    holding the outputs and the trajectory, or the same exception. *)
Lemma heap_forward_refines {A : Type} `{Scalar A} (hidden_size : nat)
    (inputs : list (ndarray A)) (pU pW pV pb pc : loc) (U W V b c : ndarray A)
    (σ : Heap.heap A) :
  σ !! pU = Some (OArray U) -> σ !! pW = Some (OArray W) ->
  σ !! pV = Some (OArray V) -> σ !! pb = Some (OArray b) ->
  σ !! pc = Some (OArray c) ->
  match forward hidden_size inputs U W V b c with
  | Ok (outs, hs) =>
      exists σ',
        HeapRNN.forward hidden_size inputs pU pW pV pb pc σ
        = (Ok (S (length σ), length σ), σ') /\
        σ' !! S (length σ) = Some (OList outs) /\
        σ' !! length σ = Some (OArray3 hs)
  | Raise e => (HeapRNN.forward hidden_size inputs pU pW pV pb pc σ).1 = Raise e
  end.
Proof.
  intros HU HW HV Hb Hc. unfold forward, HeapRNN.forward.
  set (hs0 := replicate (length inputs + 1) (np_zeros hidden_size 1)).
  set (σ1 := (σ ++ [OArray3 hs0]) ++ [OList []]).
  assert (σ1 !! length σ = Some (OArray3 hs0)) as Hhs.
  { unfold σ1. rewrite lookup_app_l by (rewrite length_app; simpl; lia).
    by rewrite lookup_app_r, Nat.sub_diag. }
  assert (σ1 !! S (length σ) = Some (OList [])) as Houts.
  { unfold σ1. rewrite lookup_app_r by (rewrite length_app; simpl; lia).
    rewrite length_app. simpl. by replace (S (length σ) - (length σ + 1)) with 0 by lia. }
  assert (forall l a, σ !! l = Some (OArray a) -> σ1 !! l = Some (OArray a)) as Hkeep.
  { intros l a Hl. unfold σ1. rewrite <- app_assoc. by apply lookup_app_l_Some. }
  rewrite !bind_alloc, length_app.
  cbn [length]. replace (length σ + 1) with (S (length σ)) by lia.
  fold hs0. fold σ1.
  rewrite (bind_setitem3 _ _ _ _ _ _ _ _ Hhs).
  destruct (np_setitem hidden_size 1 hs0 0 (np_zeros hidden_size 1)) as [hs1|e];
    cbn [mbind result_bind fst]; [|done].
  assert (length σ < length σ1) as Hlt by (by eapply lookup_lt_Some).
  assert (forall l a, σ !! l = Some (OArray a) ->
            <[length σ := OArray3 hs1]> σ1 !! l = Some (OArray a)) as Hkeep'.
  { intros l a Hl. pose proof (lookup_lt_Some _ _ _ Hl).
    rewrite list_lookup_insert_ne by lia. by apply Hkeep. }
  pose proof (forward_loop_refines hidden_size inputs pU pW pV pb pc U W V b c
                (S (length σ)) (length σ) (range (length inputs)) [] hs1
                (<[length σ := OArray3 hs1]> σ1)) as Hloop.
  specialize (Hloop ltac:(repeat split; by apply Hkeep')).
  specialize (Hloop ltac:(by apply list_lookup_insert_eq)).
  specialize (Hloop ltac:(by rewrite list_lookup_insert_ne by lia)).
  destruct (for_loop (forward_body hidden_size inputs U W V b c)
              (range (length inputs)) ([], hs1)) as [[outs hs]|e].
  - destruct Hloop as (σ' & Hrun & _ & Hhs' & Houts').
    exists σ'. unfold Heap.bind. rewrite Hrun. done.
  - unfold Heap.bind.
    destruct (HeapRNN.for_loop _ _ _ _) as [[[]|e'] σ']; cbn [fst] in *;
      congruence.
Qed.

(** Lookups in a heap after writes and allocations. *)
Ltac heap_lookup :=
  repeat first
    [ rewrite list_lookup_insert_ne by lia
    | rewrite list_lookup_insert_eq
        by (rewrite ?length_insert, ?length_app; cbn [length]; lia)
    | rewrite lookup_app_l by (rewrite ?length_insert, ?length_app; cbn [length]; lia)
    | rewrite lookup_app_r by (rewrite ?length_insert, ?length_app; cbn [length]; lia) ];
  try (match goal with
       | |- _ !! ?i = _ =>
           replace i with 0
             by (rewrite ?length_insert, ?length_app; cbn [length]; lia)
       end);
  first [done | eassumption].

Section BackwardRefines.
Import Heap.
Context {A : Type} `{Scalar A}.
Variables (inputs : list (ndarray A)) (targets : list Z).
Variables (pU pW pV pb pc : loc) (U W V b c : ndarray A).
Variables (outs_loc hs_loc : loc) (outs hs : list (ndarray A)).
Variable n0 : nat.
Hypothesis HpU : pU < n0.
Hypothesis HpW : pW < n0.
Hypothesis HpV : pV < n0.
Hypothesis Hpb : pb < n0.
Hypothesis Hpc : pc < n0.
Hypothesis Hpo : outs_loc < n0.
Hypothesis Hph : hs_loc < n0.
Implicit Types σ : heap A.

(** The arguments below [n0] and the five gradients from [n0] on. *)
Local Abbreviation args_at σ :=
  (σ !! pU = Some (OArray U) /\ σ !! pW = Some (OArray W) /\
   σ !! pV = Some (OArray V) /\ σ !! pb = Some (OArray b) /\
   σ !! pc = Some (OArray c) /\
   σ !! outs_loc = Some (OList outs) /\ σ !! hs_loc = Some (OArray3 hs)).

Local Abbreviation grads_at σ g :=
  (σ !! n0 = Some (OArray (g_dU g)) /\ σ !! (n0 + 1) = Some (OArray (g_dW g)) /\
   σ !! (n0 + 2) = Some (OArray (g_dV g)) /\ σ !! (n0 + 3) = Some (OArray (g_db g)) /\
   σ !! (n0 + 4) = Some (OArray (g_dc g))).

Local Abbreviation body_h :=
  (HeapRNN.backward_body inputs outs_loc hs_loc targets pU pW pV pb pc
     n0 (n0 + 1) (n0 + 2) (n0 + 3) (n0 + 4)).

Lemma backward_body_refines (g : grads) (t : nat) σ :
  args_at σ -> grads_at σ g ->
  exists r σ',
    body_h (g_dh_next g) t σ = (r, σ') /\
    match backward_body inputs outs hs targets U W V b c g t with
    | Ok g' => r = Ok (g_dh_next g') /\ args_at σ' /\ grads_at σ' g'
    | Raise e => r = Raise e
    end.
Proof.
  intros (HU & HW & HV & Hb & Hc & Ho & Hh) (HdU & HdW & HdV & Hdb & Hdc).
  assert (n0 + 4 < length σ) as Hlen by (by eapply lookup_lt_Some).
  unfold backward_body, HeapRNN.backward_body.
  rewrite (bind_getitem_list _ _ _ _ _ Ho).
  destruct (py_get outs t) as [o|e] eqn:Eo; cbn [mbind result_bind];
    [|by eexists _, _].
  rewrite bind_alloc, bind_lift.
  destruct (py_get targets t) as [k|e]; cbn [mbind result_bind]; [|by eexists _, _].
  rewrite (bind_setrow _ (np_zeros_like o)) by heap_lookup.
  destruct (np_setrow (np_zeros_like o) k sone) as [tg|e]; cbn [mbind result_bind];
    [|by eexists _, _].
  rewrite (bind_getitem_list _ outs) by heap_lookup. rewrite Eo.
  rewrite (bind_load_array _ tg) by heap_lookup.
  rewrite bind_lift.
  destruct (np_sub o tg) as [dy|e]; cbn [mbind result_bind]; [|by eexists _, _].
  rewrite (bind_getitem3 _ hs) by heap_lookup.
  destruct (py_get hs (t + 1)) as [hn|e] eqn:En; cbn [mbind result_bind];
    [|by eexists _, _].
  rewrite bind_lift.
  destruct (np_dot dy (np_T hn)) as [p|e]; cbn [mbind result_bind]; [|by eexists _, _].
  rewrite (bind_iadd _ (g_dV g)) by heap_lookup.
  destruct (np_iadd (g_dV g) p) as [dV'|e]; cbn [mbind result_bind]; [|by eexists _, _].
  rewrite (bind_iadd _ (g_dc g)) by heap_lookup.
  destruct (np_iadd (g_dc g) dy) as [dc'|e]; cbn [mbind result_bind]; [|by eexists _, _].
  rewrite (bind_load_array _ V) by heap_lookup.
  rewrite bind_lift.
  destruct (np_dot (np_T V) dy) as [vy|e]; cbn [mbind result_bind]; [|by eexists _, _].
  rewrite bind_lift.
  destruct (np_add vy (g_dh_next g)) as [dh|e]; cbn [mbind result_bind];
    [|by eexists _, _].
  rewrite (bind_getitem3 _ hs) by heap_lookup. rewrite En.
  rewrite bind_lift.
  destruct (np_mul (np_map (ssub sone) (np_map (fun v => smul v v) hn)) dh)
    as [dtanh|e]; cbn [mbind result_bind]; [|by eexists _, _].
  rewrite (bind_iadd _ (g_db g)) by heap_lookup.
  destruct (np_iadd (g_db g) dtanh) as [db'|e]; cbn [mbind result_bind];
    [|by eexists _, _].
  rewrite bind_lift.
  destruct (py_get inputs t) as [x|e]; cbn [mbind result_bind]; [|by eexists _, _].
  rewrite bind_lift.
  destruct (np_dot dtanh (np_T x)) as [pu|e]; cbn [mbind result_bind];
    [|by eexists _, _].
  rewrite (bind_iadd _ (g_dU g)) by heap_lookup.
  destruct (np_iadd (g_dU g) pu) as [dU'|e]; cbn [mbind result_bind];
    [|by eexists _, _].
  rewrite (bind_getitem3 _ hs) by heap_lookup.
  destruct (py_get hs t) as [hp|e]; cbn [mbind result_bind]; [|by eexists _, _].
  rewrite bind_lift.
  destruct (np_dot dtanh (np_T hp)) as [pw|e]; cbn [mbind result_bind];
    [|by eexists _, _].
  rewrite (bind_iadd _ (g_dW g)) by heap_lookup.
  destruct (np_iadd (g_dW g) pw) as [dW'|e]; cbn [mbind result_bind];
    [|by eexists _, _].
  rewrite (bind_load_array _ W) by heap_lookup.
  unfold lift.
  destruct (np_dot (np_T W) dtanh) as [dn|e]; cbn [mbind result_bind];
    [|by eexists _, _].
  eexists _, _. split; [reflexivity|]. cbn [g_dh_next g_dU g_dW g_dV g_db g_dc].
  split; [done|]. repeat split; heap_lookup.
Qed.

Lemma backward_loop_refines (its : list nat) : forall (g : grads) σ,
  args_at σ -> grads_at σ g ->
  exists r σ',
    HeapRNN.for_loop body_h its (g_dh_next g) σ = (r, σ') /\
    match for_loop (backward_body inputs outs hs targets U W V b c) its g with
    | Ok g' => r = Ok (g_dh_next g') /\ args_at σ' /\ grads_at σ' g'
    | Raise e => r = Raise e
    end.
Proof.
  induction its as [|t its IH]; intros g σ Ha Hg; cbn [for_loop HeapRNN.for_loop].
  - by eexists _, _.
  - destruct (backward_body_refines g t σ Ha Hg) as (r & σ1 & Hrun & Hres).
    unfold bind. rewrite Hrun.
    destruct (backward_body inputs outs hs targets U W V b c g t) as [g1|e];
      cbn [mbind result_bind].
    + destruct Hres as (-> & Ha1 & Hg1). by apply IH.
    + subst r. by eexists _, _.
Qed.

End BackwardRefines.

(** On a heap that holds the parameters, the outputs and the trajectory,
    the heap program [backward] returns what the function [backward]
    returns: the locations of five new objects holding the gradients, or
    the same exception. *)
Lemma heap_backward_refines {A : Type} `{Scalar A} (inputs : list (ndarray A))
    (targets : list Z) (pU pW pV pb pc outs_loc hs_loc : loc)
    (U W V b c : ndarray A) (outs hs : list (ndarray A)) (σ : Heap.heap A) :
  σ !! pU = Some (OArray U) -> σ !! pW = Some (OArray W) ->
  σ !! pV = Some (OArray V) -> σ !! pb = Some (OArray b) ->
  σ !! pc = Some (OArray c) ->
  σ !! outs_loc = Some (OList outs) -> σ !! hs_loc = Some (OArray3 hs) ->
  let n0 := length σ in
  exists r σ',
    HeapRNN.backward inputs outs_loc hs_loc targets pU pW pV pb pc σ = (r, σ') /\
    match backward inputs outs hs targets U W V b c with
    | Ok (dU, dW, dV, db, dc) =>
        r = Ok (n0, n0 + 1, n0 + 2, n0 + 3, n0 + 4) /\
        σ' !! n0 = Some (OArray dU) /\ σ' !! (n0 + 1) = Some (OArray dW) /\
        σ' !! (n0 + 2) = Some (OArray dV) /\ σ' !! (n0 + 3) = Some (OArray db) /\
        σ' !! (n0 + 4) = Some (OArray dc)
    | Raise e => r = Raise e
    end.
Proof.
  intros HU HW HV Hb Hc Ho Hh n0.
  pose proof (lookup_lt_Some _ _ _ HU). pose proof (lookup_lt_Some _ _ _ HW).
  pose proof (lookup_lt_Some _ _ _ HV). pose proof (lookup_lt_Some _ _ _ Hb).
  pose proof (lookup_lt_Some _ _ _ Hc). pose proof (lookup_lt_Some _ _ _ Ho).
  pose proof (lookup_lt_Some _ _ _ Hh).
  unfold backward, HeapRNN.backward.
  rewrite (bind_load_array _ U), bind_alloc by heap_lookup.
  rewrite (bind_load_array _ W), bind_alloc by heap_lookup.
  rewrite (bind_load_array _ V), bind_alloc by heap_lookup.
  rewrite (bind_load_array _ b), bind_alloc by heap_lookup.
  rewrite (bind_load_array _ c), bind_alloc by heap_lookup.
  rewrite !length_app. cbn [length].
  replace (length σ + 1 + 1) with (n0 + 2) by (unfold n0; lia).
  replace (n0 + 2 + 1) with (n0 + 3) by lia.
  replace (n0 + 3 + 1) with (n0 + 4) by lia.
  fold n0.
  set (σ1 := ((((σ ++ [OArray (np_zeros_like U)]) ++ [OArray (np_zeros_like W)])
                ++ [OArray (np_zeros_like V)]) ++ [OArray (np_zeros_like b)])
              ++ [OArray (np_zeros_like c)]).
  assert (length σ1 = n0 + 5) as Hl1
    by (unfold σ1, n0; rewrite !length_app; cbn [length]; lia).
  rewrite (bind_getitem3 _ hs) by (unfold σ1; heap_lookup).
  destruct (py_get hs 0) as [h0|e]; cbn [mbind result_bind]; [|by eexists _, _].
  destruct (backward_loop_refines inputs targets pU pW pV pb pc U W V b c
              outs_loc hs_loc outs hs n0 ltac:(done) ltac:(done) ltac:(done)
              ltac:(done) ltac:(done) ltac:(done) ltac:(done)
              (reverse (range (length inputs)))
              (Grads (np_zeros_like U) (np_zeros_like W) (np_zeros_like V)
                 (np_zeros_like b) (np_zeros_like c) (np_zeros_like h0)) σ1)
    as (r & σ' & Hrun & Hres).
  - unfold σ1. repeat split; heap_lookup.
  - unfold σ1, n0. cbn [g_dU g_dW g_dV g_db g_dc]. repeat split; heap_lookup.
  - cbn [g_dh_next] in Hrun. unfold Heap.bind at 1. rewrite Hrun.
    destruct (for_loop _ _ _) as [g|e]; cbn [mbind result_bind].
    + destruct Hres as (-> & _ & Hg). eexists _, _. split; [reflexivity|].
      split; [done|]. exact Hg.
    + subst r. by eexists _, _.
Qed.

Ltac concrete := repeat (first [done | split | constructor]); try lia.

(** ** One training step with all weights zero

    With one hidden unit, two classes and all weights and biases zero, the
    hidden state stays zero, both classes get probability 1/2, and only the
    output bias moves: towards the target class and away from the other. *)

Lemma tanh_zero : tanh 0 = 0%R.
Proof. unfold tanh. rewrite sinh_0. unfold Rdiv. apply Rmult_0_l. Qed.

Lemma zero_weights_hidden :
  hidden_from Toy.U Toy.W Toy.b (replicate 1 szero) [[1%R]] = [[0%R]].
Proof.
  unfold hidden_from, cell, mat_vec, vadd, dotp, ssum, vec_of, column.
  cbn -[tanh Rplus Rmult IZR].
  replace (0 * 1 + 0 + (0 * 0 + 0) + 0)%R with 0%R by lra.
  by rewrite tanh_zero.
Qed.

Lemma zero_weights_outputs :
  outputs_of 1 Toy.U Toy.W Toy.V Toy.b Toy.c [[1%R]]
  = [[(1 / 2)%R; (1 / 2)%R]].
Proof.
  unfold outputs_of. rewrite zero_weights_hidden.
  unfold readout, softmax_vec, max_entry, mat_vec, vadd, dotp, ssum, vec_of, column.
  cbn -[exp Rmax Rplus Rmult Rdiv Rminus IZR].
  replace (0 * 0 + 0 + 0)%R with 0%R by lra.
  rewrite Rmax_left by lra. rewrite Rminus_diag, exp_0.
  by replace (1 / (1 + (1 + 0)))%R with (1 / 2)%R by lra.
Qed.

Example forward_zero_weights :
  forward 1 Toy.inputs Toy.U Toy.W Toy.V Toy.b Toy.c
  = Ok ([col [(1 / 2)%R; (1 / 2)%R]], [col [0%R]; col [0%R]]).
Proof.
  unfold Toy.inputs.
  rewrite (forward_run 1 1 2 Toy.U Toy.W Toy.V Toy.b Toy.c)
    with (xs := [[1%R]]); [|concrete..].
  unfold trajectory. by rewrite zero_weights_outputs, zero_weights_hidden.
Qed.

Example train_step_zero_weights (learning_rate : R) :
  train_step 1 Toy.inputs Toy.targets Toy.U Toy.W Toy.V Toy.b Toy.c learning_rate
  = Ok (Toy.U, Toy.W, Toy.V, Toy.b,
        col [(learning_rate / 2)%R; (- learning_rate / 2)%R],
        (- ln (1 / 2 + 1e-8))%R).
Proof.
  destruct (train_step_run 1 1 2 Toy.U Toy.W Toy.V Toy.b Toy.c
              [[1%R]] Toy.targets learning_rate) as (_ & _ & Hrun);
    [concrete..|].
  unfold Toy.inputs. cbn [map] in Hrun. rewrite Hrun. clear Hrun.
  unfold trajectory. rewrite zero_weights_outputs, zero_weights_hidden.
  assert (output_errors 2 [[(1 / 2)%R; (1 / 2)%R]] Toy.targets
          = [[(1 / 2 - 1)%R; (1 / 2 - 0)%R]]) as -> by reflexivity.
  unfold descend, mean_nll, hidden_errors, deltas, dh_next_of, dtanh_of,
    msum, vsum, madd, vadd, vmul, outer, matT_vec, dotp, ssum, column,
    col, Toy.targets.
  cbn -[ln Rplus Rmult Rdiv Rminus Ropp IZR INR].
  change (Z.to_nat 0) with 0%nat. cbn [INR].
  unfold Toy.U, Toy.W, Toy.V, Toy.b, np_zeros. cbn [replicate].
  repeat f_equal; change (@szero R _) with 0%R; lra.
Qed.

(** The same forward pass as a heap program: the outputs and the trajectory
    are the two new objects. *)
Example heap_forward_zero_weights :
  exists σ',
    HeapRNN.forward 1 Toy.inputs 0 1 2 3 4 Toy.params = (Ok (6, 5), σ') /\
    σ' !! 6 = Some (OList [col [(1 / 2)%R; (1 / 2)%R]]) /\
    σ' !! 5 = Some (OArray3 [col [0%R]; col [0%R]]).
Proof.
  pose proof (heap_forward_refines 1 Toy.inputs 0 1 2 3 4 Toy.U Toy.W Toy.V Toy.b
                Toy.c Toy.params eq_refl eq_refl eq_refl eq_refl eq_refl) as Href.
  rewrite forward_zero_weights in Href. exact Href.
Qed.

(** ** The properties on the small instances

    Each property that has premises, applied to an instance that satisfies
    them. *)

Lemma forward_recurrence_witness :
  exists outputs hidden_states,
    forward 1 Toy.inputs Toy.U Toy.W Toy.V Toy.b Toy.c = Ok (outputs, hidden_states) /\
    hidden_states !! 0 = Some (np_zeros 1 1).
Proof.
  destruct (forward_recurrence 1 1 2 Toy.U Toy.W Toy.V Toy.b Toy.c Toy.inputs)
    as (outputs & hidden_states & Hrun & Hzero & _); [concrete..|].
  exists outputs, hidden_states. split; [exact Hrun | exact Hzero].
Defined.

Lemma backward_bptt_witness :
  exists g,
    backward Toy.inputs [col [1%R; 0%R]] [col [0%R]; col [0%R]] Toy.targets
      Toy.U Toy.W Toy.V Toy.b Toy.c = Ok g.
Proof.
  pose proof (backward_bptt 1 1 2 Toy.U Toy.W Toy.V Toy.b Toy.c Toy.inputs
                [col [1%R; 0%R]] [col [0%R]; col [0%R]] Toy.targets
                R_sadd_comm R_sadd_0_r) as Hw.
  destruct Hw as (Hrun & _); [concrete..|].
  eexists. exact Hrun.
Defined.


Lemma forward_rejects_mismatch_witness :
  forward 1 [col [1%R; 2%R]] Toy.U Toy.W Toy.V Toy.b Toy.c = Raise ValueError.
Proof.
  apply (forward_rejects_mismatch 1 [col [1%R; 2%R]] Toy.U Toy.W Toy.V Toy.b Toy.c
           (col [1%R; 2%R])).
  - constructor.
  - unfold Toy.U, nrows. simpl. lia.
Defined.

Lemma parameters_unchanged_witness :
  (HeapRNN.forward 1 Toy.inputs 0 1 2 3 4 Toy.params).2 !! 0 = Some (OArray Toy.U) /\
  (HeapRNN.backward Toy.inputs 6 5 Toy.targets 0 1 2 3 4
     (HeapRNN.forward 1 Toy.inputs 0 1 2 3 4 Toy.params).2).2 !! 2
  = Some (OArray Toy.V).
Proof.
  split.
  - apply (parameters_unchanged 1 Toy.inputs 0 0 [] 0 1 2 3 4 Toy.params).
    reflexivity.
  - apply (parameters_unchanged 1 Toy.inputs 6 5 Toy.targets 0 1 2 3 4).
    apply (parameters_unchanged 1 Toy.inputs 0 0 [] 0 1 2 3 4 Toy.params).
    reflexivity.
Defined.


Lemma predict_unvalidated_witness :
  Toy.predict "a"%char 0 0%R tt = Ok (["a"%char], tt).
Proof.
  apply (predict_unvalidated unit Toy.model tt Toy.char_to_index Toy.index_to_char
           unit Toy.multinomial "a"%char 0 0%R tt).
  - by eexists.
  - lia.
Defined.

(** ** float64: the constants *)

Section Constants.
Local Open Scope R_scope.

Lemma Rabs_bound (a b : R) : Rabs a <= b -> - b <= a <= b.
Proof. unfold Rabs. destruct (Rcase_abs a); lra. Qed.

Lemma pow2_IZR (n : nat) : 2 ^ n = IZR (2 ^ Z.of_nat n).
Proof. by rewrite <- pow_IZR. Qed.

Lemma pow2_pos (n : nat) : 0 < 2 ^ n.
Proof. apply pow_lt. lra. Qed.

Lemma pow2_le (m n : nat) : (m <= n)%nat -> 2 ^ m <= 2 ^ n.
Proof. intros Hmn. apply Rle_pow; [lra | done]. Qed.

Lemma huge_large : 1e18 <= huge.
Proof.
  unfold huge. etransitivity; [|apply (pow2_le 64 1024); lia].
  rewrite pow2_IZR. vm_compute (2 ^ Z.of_nat 64)%Z. lra.
Qed.

Lemma unit_roundoff_eq : unit_roundoff = / 9007199254740992.
Proof. unfold unit_roundoff. rewrite pow2_IZR. by vm_compute (2 ^ Z.of_nat 53)%Z. Qed.

Lemma unit_roundoff_bounds : 0 < unit_roundoff <= 1.2e-16.
Proof. rewrite unit_roundoff_eq. lra. Qed.

Lemma tiny_bounds : 0 < tiny <= unit_roundoff.
Proof.
  unfold tiny, unit_roundoff. split.
  - apply Rinv_0_lt_compat, pow2_pos.
  - apply Rinv_le_contravar; [apply pow2_pos | apply pow2_le; lia].
Qed.

End Constants.

(** ** float64: the operations *)

Section Float64Facts.
Context {fa : float_arith}.
Hypothesis Hfa : ieee fa.
Local Open Scope R_scope.

Lemma overflow_Finite (x : R) : - huge < x < huge -> overflow x = Finite x.
Proof.
  intros [Hl Hu]. unfold overflow.
  destruct (Rle_dec huge x); [lra|]. destruct (Rle_dec x (- huge)); [lra | done].
Qed.

Lemma overflow_PInf (x : R) : huge <= x -> overflow x = PInf.
Proof. intros Hx. unfold overflow. by destruct (Rle_dec huge x). Qed.

Lemma overflow_NInf (x : R) : x <= - huge -> overflow x = NInf.
Proof.
  intros Hx. pose proof huge_large. unfold overflow.
  destruct (Rle_dec huge x); [lra|]. by destruct (Rle_dec x (- huge)).
Qed.

Lemma overflow_zero : overflow 0 = Finite 0.
Proof. pose proof huge_large. apply overflow_Finite. lra. Qed.

(** Rounding keeps the sign and stays next to the exact result. *)
Lemma rnd_nonneg (x : R) : 0 <= x -> 0 <= rnd x.
Proof. intros Hx. rewrite <- (rnd_zero Hfa). by apply (rnd_monotone Hfa). Qed.

Lemma rnd_nonpos (x : R) : x <= 0 -> rnd x <= 0.
Proof. intros Hx. rewrite <- (rnd_zero Hfa). by apply (rnd_monotone Hfa). Qed.

Lemma rnd_near (x : R) :
  0 <= x ->
  x - (unit_roundoff * x + tiny) <= rnd x <= x + (unit_roundoff * x + tiny).
Proof.
  intros Hx. pose proof (rnd_error Hfa x) as He.
  rewrite (Rabs_right x) in He by lra.
  apply Rabs_bound in He. lra.
Qed.

Lemma fadd_NaN_l (a : float64) : fadd NaN a = NaN.
Proof. done. Qed.

Lemma fadd_NaN_r (a : float64) : fadd a NaN = NaN.
Proof. by destruct a. Qed.

Lemma fdiv_NaN_r (a : float64) : fdiv a NaN = NaN.
Proof. by destruct a. Qed.

Lemma fmax_NaN_l (a : float64) : fmax NaN a = NaN.
Proof. done. Qed.

Lemma fmax_NaN_r (a : float64) : fmax a NaN = NaN.
Proof. by destruct a. Qed.

Lemma fsub_NaN_r (a : float64) : fsub a NaN = NaN.
Proof. by destruct a. Qed.

(** A sum with a NaN among its terms is NaN. *)
Lemma ssum_NaN (l : list float64) : NaN ∈ l -> ssum l = NaN.
Proof.
  induction l as [|a l IH]; intros Hin; [by apply elem_of_nil in Hin|].
  change (ssum (a :: l)) with (fadd a (ssum l)).
  apply elem_of_cons in Hin as [<- | Hin]; [done|].
  rewrite IH by done. apply fadd_NaN_r.
Qed.

(** ** float64: the largest entry *)

Lemma fle_trans (a b c : float64) : fle a b -> fle b c -> fle a c.
Proof. destruct a, b, c; simpl; try done; lra. Qed.

Lemma fle_refl (a : float64) : is_nan a = false -> fle a a.
Proof. destruct a; simpl; try done; lra. Qed.

Lemma fmax_cases (a b : float64) :
  is_nan a = false -> is_nan b = false ->
  is_nan (fmax a b) = false /\ (fmax a b = a \/ fmax a b = b) /\
  fle a (fmax a b) /\ fle b (fmax a b).
Proof.
  destruct a as [x| | |], b as [y| | |]; simpl; try done; intros _ _;
    try (split; [done|]; split; [auto|]; split; (done || lra)).
  split; [done|]. unfold Rmax. destruct (Rle_dec x y); split; auto; lra.
Qed.

Lemma foldl_fmax_NaN (l : list float64) : foldl fmax NaN l = NaN.
Proof. induction l as [|a l IH]; [done|]. simpl. exact IH. Qed.

(** [np.max] of entries with a NaN among them is NaN. *)
Lemma max_entry_NaN (z : list float64) : NaN ∈ z -> max_entry z = NaN.
Proof.
  destruct z as [|x l]; [intros Hin; by apply elem_of_nil in Hin|].
  unfold max_entry. change (@smax float64 _) with fmax.
  revert x. induction l as [|a l IH]; intros x Hin.
  - apply elem_of_cons in Hin as [<- | Hin]; [done | by apply elem_of_nil in Hin].
  - simpl. apply elem_of_cons in Hin as [<- | Hin]; [apply foldl_fmax_NaN|].
    apply elem_of_cons in Hin as [<- | Hin].
    + rewrite fmax_NaN_r. apply foldl_fmax_NaN.
    + apply IH. by right.
Qed.

(** Without NaN it is one of the entries, and no entry is above it. *)
Lemma max_entry_greatest (z : list float64) :
  z <> [] -> Forall (fun a => is_nan a = false) z ->
  is_nan (max_entry z) = false /\ max_entry z ∈ z /\
  Forall (fun a => fle a (max_entry z)) z.
Proof.
  destruct z as [|x l]; [done|]. intros _ Hz.
  unfold max_entry. change (@smax float64 _) with fmax.
  apply Forall_cons in Hz as [Hx Hl]. revert x Hx.
  induction Hl as [|a l Ha Hl IH]; intros x Hx.
  - simpl. split; [done|]. split; [by left|]. constructor; [by apply fle_refl | done].
  - simpl. destruct (fmax_cases x a Hx Ha) as (Hn & Hc & Hxa & Haa).
    destruct (IH (fmax x a) Hn) as (Hm & Hin & Hall).
    split; [done|]. split.
    + apply elem_of_cons in Hin as [Hin | Hin].
      * rewrite Hin. destruct Hc as [-> | ->]; [by left | right; by left].
      * right. by right.
    + apply Forall_cons in Hall as [Hf Hall].
      constructor; [by eapply fle_trans|]. constructor; [by eapply fle_trans | done].
Qed.

(** ** float64: softmax *)

Lemma map_fdiv_NaN (e : list float64) :
  map (fun v => fdiv v NaN) e = replicate (length e) NaN.
Proof.
  induction e as [|a e IH]; [done|]. simpl. by rewrite IH, fdiv_NaN_r.
Qed.

(** When the exponential of one shifted logit is NaN, so is every entry. *)
Lemma softmax_vec_NaN (z : list float64) (a : float64) :
  a ∈ z -> np_exp (fsub a (max_entry z)) = NaN ->
  softmax_vec z = replicate (length z) NaN.
Proof.
  intros Hin Ha. unfold softmax_vec.
  change (@sdiv float64 _) with fdiv. change (@sexp float64 _) with np_exp.
  change (@ssub float64 _) with fsub.
  rewrite (ssum_NaN (map _ z)).
  - by rewrite map_fdiv_NaN, length_map.
  - rewrite <- Ha. apply (list_elem_of_fmap_2 (fun v => np_exp (fsub v (max_entry z)))).
    exact Hin.
Qed.

Lemma existsb_elem (p : float64 -> bool) (z : list float64) :
  existsb p z = true -> exists a, a ∈ z /\ p a = true.
Proof.
  intros Hex. apply existsb_exists in Hex as (a & Hin & Hp).
  exists a. split; [by apply list_elem_of_In | done].
Qed.

Lemma existsb_none (p : float64 -> bool) (z : list float64) :
  existsb p z = false -> Forall (fun a => p a = false) z.
Proof.
  induction z as [|a z IH]; simpl; [done|].
  intros Hex. apply orb_false_iff in Hex as [Ha Hz]. constructor; auto.
Qed.

Lemma softmax_vec_nan_logits (z : list float64) :
  z <> [] -> nan_logits z = true -> softmax_vec z = replicate (length z) NaN.
Proof.
  intros Hne Hnan. unfold nan_logits in Hnan.
  destruct (existsb is_nan z) eqn:Hn.
  { apply existsb_elem in Hn as ([| | |] & Hin & Hp); try done.
    apply (softmax_vec_NaN z NaN Hin).
    rewrite (max_entry_NaN z Hin), fsub_NaN_r. apply (exp_of_nan Hfa). }
  apply existsb_none in Hn.
  destruct (max_entry_greatest z Hne Hn) as (Hm & Hmin & Hall).
  destruct (existsb is_pinf z) eqn:Hp.
  { apply existsb_elem in Hp as ([| | |] & Hin & Hp); try done.
    apply (softmax_vec_NaN z PInf Hin).
    rewrite Forall_forall in Hall. pose proof (Hall _ Hin) as Hle.
    destruct (max_entry z); try done. simpl. apply (exp_of_nan Hfa). }
  simpl in Hnan. rewrite forallb_forall in Hnan.
  pose proof (Hnan _ (proj1 (list_elem_of_In _ _) Hmin)) as Hninf.
  apply (softmax_vec_NaN z (max_entry z) Hmin).
  destruct (max_entry z); try done. simpl. apply (exp_of_nan Hfa).
Qed.

(** Otherwise the largest logit is finite, and the others are finite and
    at most as large, or -inf. *)
Lemma max_entry_Finite (z : list float64) :
  z <> [] -> nan_logits z = false ->
  exists M : R, max_entry z = Finite M /\ Finite M ∈ z /\
    Forall (fun a => a = NInf \/ exists x : R, a = Finite x /\ x <= M) z.
Proof.
  intros Hne Hnan. unfold nan_logits in Hnan.
  apply orb_false_iff in Hnan as [Hnan Hninf].
  apply orb_false_iff in Hnan as [Hn Hp].
  apply existsb_none in Hn. apply existsb_none in Hp.
  destruct (max_entry_greatest z Hne Hn) as (Hm & Hmin & Hall).
  rewrite Forall_forall in Hall, Hp.
  destruct (max_entry z) as [M| | |] eqn:HM; try done.
  - exists M. split; [done|]. split; [done|].
    apply Forall_forall. intros a Ha. pose proof (Hall a Ha) as Hle.
    destruct a as [x| | |]; try done; [right; eauto | by left].
  - by pose proof (Hp _ Hmin).
  - assert (forallb is_ninf z = true) as Habs; [|congruence].
    apply forallb_forall. intros a Ha. apply list_elem_of_In in Ha.
    pose proof (Hall a Ha) as Hle. by destruct a.
Qed.

Lemma exp_shift (a : float64) (M : R) :
  a = NInf \/ (exists x : R, a = Finite x /\ x <= M) ->
  exists y : R, np_exp (fsub a (Finite M)) = Finite y /\ 0 <= y <= 1.
Proof.
  intros [-> | (x & -> & Hx)].
  - simpl. rewrite (exp_of_ninf Hfa). exists 0. split; [done | lra].
  - unfold fsub, fopp, fadd.
    assert (rnd (x + - M) <= 0) as Hr by (apply rnd_nonpos; lra).
    pose proof huge_large as Hh. unfold overflow.
    destruct (Rle_dec huge (rnd (x + - M))); [lra|].
    destruct (Rle_dec (rnd (x + - M)) (- huge)).
    + rewrite (exp_of_ninf Hfa). exists 0. split; [done | lra].
    + by apply (exp_of_nonpos Hfa).
Qed.

Lemma exp_shift_max (M : R) : np_exp (fsub (Finite M) (Finite M)) = Finite 1.
Proof.
  unfold fsub, fopp, fadd. replace (M + - M) with 0 by lra.
  rewrite (rnd_zero Hfa), overflow_zero. apply (exp_of_zero Hfa).
Qed.

Lemma map_Finite (f : float64 -> float64) (P : R -> Prop) (z : list float64) :
  Forall (fun a => exists y : R, f a = Finite y /\ P y) z ->
  exists ys : list R, map f z = Finite <$> ys /\ Forall P ys.
Proof.
  induction 1 as [|a z (y & Hy & HP) _ (ys & Hys & HPs)].
  - by exists [].
  - exists (y :: ys). simpl. rewrite Hy, Hys. split; [done | by constructor].
Qed.

Lemma elem_of_map_Finite (f : float64 -> float64) (z : list float64) (ys : list R)
    (a : float64) (y : R) :
  map f z = Finite <$> ys -> a ∈ z -> f a = Finite y -> y ∈ ys.
Proof.
  intros Hmap Ha Hy.
  apply (list_elem_of_fmap_2 f) in Ha. change (f a ∈ map f z) in Ha.
  rewrite Hmap, Hy in Ha.
  apply list_elem_of_fmap in Ha as (y' & [= ->] & Hin). done.
Qed.

(** The exponentials of the shifted logits are finite numbers between 0
    and 1, and that of the largest logit is 1. *)
Lemma exponentials_Finite (z : list float64) :
  z <> [] -> nan_logits z = false ->
  exists ys : list R,
    map (fun v => np_exp (fsub v (max_entry z))) z = Finite <$> ys /\
    Forall (fun y => 0 <= y <= 1) ys /\ 1 ∈ ys.
Proof.
  intros Hne Hnan.
  destruct (max_entry_Finite z Hne Hnan) as (M & -> & Hin & Hall).
  destruct (map_Finite (fun v => np_exp (fsub v (Finite M)))
              (fun y => 0 <= y <= 1) z) as (ys & Hys & Hran).
  { eapply Forall_impl; [exact Hall|]. intros a Ha. by apply exp_shift. }
  exists ys. split; [done|]. split; [done|].
  apply (elem_of_map_Finite _ z ys (Finite M) 1 Hys Hin). apply exp_shift_max.
Qed.

(** ** float64: sums of finite numbers *)

Lemma INR_bound (n : nat) : (Z.of_nat n <= 1000000)%Z -> 0 <= INR n <= 1000000.
Proof.
  intros Hn. split; [apply pos_INR|].
  rewrite INR_IZR_INZ. by apply IZR_le.
Qed.

Lemma ssum_range (ys : list R) :
  Forall (fun y => 0 <= y <= 2) ys -> 0 <= ssum ys <= 2 * INR (length ys).
Proof.
  induction 1 as [|y ys Hy _ IH].
  - simpl. unfold ssum. simpl. lra.
  - rewrite ssum_cons. change (length (y :: ys)) with (S (length ys)).
    rewrite S_INR. lra.
Qed.

(** The sum NumPy computes of up to a million numbers between 0 and 2 is
    finite and next to the exact sum. *)
Lemma ssum_Finite (ys : list R) :
  (Z.of_nat (length ys) <= 1000000)%Z -> Forall (fun y => 0 <= y <= 2) ys ->
  exists s : R,
    ssum (Finite <$> ys) = Finite s /\ 0 <= s /\
    Rabs (s - ssum ys)
    <= 2 * INR (length ys) * (unit_roundoff * ssum ys + tiny).
Proof.
  intros Hlen Hys. induction Hys as [|y ys Hy Hys IH].
  - exists 0. split; [done|]. split; [lra|].
    simpl. unfold ssum. simpl. rewrite Rminus_diag, Rabs_R0. lra.
  - destruct IH as (s & Hs & Hs0 & Herr); [simpl in Hlen; lia|].
    change (ssum (Finite <$> y :: ys)) with (fadd (Finite y) (ssum (Finite <$> ys))).
    rewrite Hs. unfold fadd. rewrite ssum_cons.
    change (length (y :: ys)) with (S (length ys)). rewrite S_INR.
    change (length (y :: ys)) with (S (length ys)) in Hlen.
    pose proof (INR_bound (length ys) ltac:(lia)) as HK.
    assert (INR (length ys) <= 999999) as HK'.
    { rewrite INR_IZR_INZ. apply IZR_le. lia. }
    pose proof (ssum_range ys Hys) as HT.
    set (K := INR (length ys)) in *. set (T := ssum ys) in *.
    apply Rabs_bound in Herr.
    pose proof (rnd_near (y + s) ltac:(lra)) as Hr.
    pose proof (rnd_nonneg (y + s) ltac:(lra)) as Hr0.
    set (r := rnd (y + s)) in *.
    pose proof tiny_bounds as Ht. pose proof huge_large as Hh.
    rewrite unit_roundoff_eq in *.
    assert (0 <= K * T <= 1000000 * T) as P1.
    { split; [apply Rmult_le_pos; lra|]. apply Rmult_le_compat_r; lra. }
    assert (0 <= K * tiny <= 1000000 * tiny) as P2.
    { split; [apply Rmult_le_pos; lra|]. apply Rmult_le_compat_r; lra. }
    assert (0 <= K * y) as P3 by (apply Rmult_le_pos; lra).
    exists r. split; [apply overflow_Finite; lra|]. split; [done|].
    apply Rabs_le. lra.
Qed.

(** ** float64: the entries of softmax and their sum *)

Lemma div_between (a b t s : R) : 0 < s -> a * s <= t <= b * s -> a <= t / s <= b.
Proof.
  intros Hs [Ha Hb].
  assert (0 < / s) as Hi by (by apply Rinv_0_lt_compat).
  assert (s * / s = 1) as Hone by (apply Rinv_r; lra).
  unfold Rdiv. split.
  - replace a with (a * s * / s) by (rewrite Rmult_assoc, Hone; lra).
    apply Rmult_le_compat_r; lra.
  - replace b with (b * s * / s) by (rewrite Rmult_assoc, Hone; lra).
    apply Rmult_le_compat_r; lra.
Qed.

Lemma ssum_elem_le_R (ys : list R) (y : R) :
  Forall (fun y => 0 <= y) ys -> y ∈ ys -> y <= ssum ys.
Proof.
  induction 1 as [|x ys Hx Hys IH]; intros Hin; [by apply elem_of_nil in Hin|].
  rewrite ssum_cons.
  assert (0 <= ssum ys) as H0.
  { clear IH Hin. induction Hys as [|z zs Hz _ IHz]; [unfold ssum; simpl; lra|].
    rewrite ssum_cons. lra. }
  apply elem_of_cons in Hin as [-> | Hin]; [lra|]. specialize (IH Hin). lra.
Qed.

(** The rounded quotients of numbers by [s] add up to the quotient of
    their sum, up to the rounding of each. *)
Lemma ssum_quotients (ys : list R) (s : R) :
  0 < s -> Forall (fun y => 0 <= y) ys ->
  0 <= ssum ys / s /\
  Rabs (ssum (map (fun y => rnd (y / s)) ys) - ssum ys / s)
  <= unit_roundoff * (ssum ys / s) + INR (length ys) * tiny.
Proof.
  intros Hs. pose proof unit_roundoff_bounds as Hu. pose proof tiny_bounds as Ht.
  induction 1 as [|y ys Hy _ [IH0 IH]].
  - unfold ssum. simpl. unfold Rdiv. rewrite Rmult_0_l, Rminus_diag, Rabs_R0. lra.
  - cbn [map]. rewrite !ssum_cons.
    change (length (y :: ys)) with (S (length ys)). rewrite S_INR.
    replace ((y + ssum ys) / s) with (y / s + ssum ys / s) by (field; lra).
    assert (0 <= y / s) as Hw.
    { apply (div_between 0 (y / s + 1) y s Hs). split; [lra|].
      replace ((y / s + 1) * s) with (y + s) by (field; lra). lra. }
    pose proof (rnd_near (y / s) Hw) as Hr.
    apply Rabs_bound in IH. split; [lra|]. apply Rabs_le. lra.
Qed.

(** For logits that are not NaN or +inf, and not all -inf, the entries of
    softmax are finite numbers, not negative, whose sum is within 1e-6 of
    1, taken exactly or as NumPy computes it. *)
Lemma softmax_vec_Finite (z : list float64) :
  z <> [] -> (Z.of_nat (length z) <= 1000000)%Z -> nan_logits z = false ->
  exists qs : list R,
    softmax_vec z = Finite <$> qs /\
    Forall (fun q => 0 <= q) qs /\
    Rabs (ssum qs - 1) <= 1e-6 /\
    exists s : R, ssum (softmax_vec z) = Finite s /\ Rabs (s - 1) <= 1e-6.
Proof.
  intros Hne Hlen Hnan.
  destruct (exponentials_Finite z Hne Hnan) as (ys & Hys & Hran & Hone).
  assert (length ys = length z) as Hl.
  { apply (f_equal length) in Hys. rewrite length_map, length_fmap in Hys. done. }
  assert (Forall (fun y => 0 <= y <= 2) ys) as Hran2
    by (eapply Forall_impl; [exact Hran | intros y Hy; simpl in Hy; lra]).
  assert (Forall (fun y => 0 <= y) ys) as Hpos
    by (eapply Forall_impl; [exact Hran | intros y Hy; simpl in Hy; lra]).
  destruct (ssum_Finite ys ltac:(lia) Hran2) as (s & Hs & Hs0 & Herr).
  pose proof (ssum_elem_le_R ys 1 Hpos Hone) as HT1.
  pose proof (ssum_range ys Hran2) as HT2.
  pose proof (INR_bound (length ys) ltac:(lia)) as HK.
  pose proof unit_roundoff_bounds as Hu. pose proof tiny_bounds as Ht.
  apply Rabs_bound in Herr.
  set (T := ssum ys) in *. set (K := INR (length ys)) in *.
  assert (0 <= K * T <= 1000000 * T) as P1.
  { split; [apply Rmult_le_pos; lra|]. apply Rmult_le_compat_r; lra. }
  assert (0 <= K * tiny <= 1000000 * tiny) as P2.
  { split; [apply Rmult_le_pos; lra|]. apply Rmult_le_compat_r; lra. }
  assert (K * T * unit_roundoff <= K * T * 1.2e-16) as P3
    by (apply Rmult_le_compat_l; lra).
  assert (0.999999999 * s <= T <= 1.000000001 * s) as Hq by lra.
  assert (0 < s) as Hspos by lra.
  pose proof (div_between _ _ T s Hspos Hq) as Hrho.
  destruct (ssum_quotients ys s Hspos Hpos) as [_ Hsum].
  fold T K in Hsum. apply Rabs_bound in Hsum.
  set (qs := map (fun y => rnd (y / s)) ys) in *.
  assert (Forall (fun q => 0 <= q <= 2) qs) as Hqs.
  { apply Forall_forall. intros q Hq'. apply list_elem_of_fmap in Hq' as (y & -> & Hy).
    rewrite Forall_forall in Hran. specialize (Hran y Hy). simpl in Hran.
    assert (0 <= y / s <= 1.2) as Hw.
    { apply (div_between 0 1.2 y s Hspos). lra. }
    pose proof (rnd_near (y / s) ltac:(lra)) as Hr.
    pose proof (rnd_nonneg (y / s) ltac:(lra)).
    rewrite unit_roundoff_eq in Hr. lra. }
  assert (softmax_vec z = Finite <$> qs) as Hsoft.
  { unfold softmax_vec.
    change (@sdiv float64 _) with fdiv. change (@sexp float64 _) with np_exp.
    change (@ssub float64 _) with fsub. rewrite Hys, Hs.
    unfold qs. change (map ?f ?l) with (f <$> l). rewrite <- !list_fmap_compose.
    apply list_fmap_ext. intros i y Hy. apply list_elem_of_lookup_2 in Hy.
    rewrite Forall_forall in Hqs.
    assert (rnd (y / s) ∈ (fun y => rnd (y / s)) <$> ys) as Hin
      by (by apply (list_elem_of_fmap_2 (fun y => rnd (y / s)))).
    specialize (Hqs _ Hin). simpl in Hqs.
    simpl. unfold fdiv. destruct (Req_dec_T s 0) as [Hz | _]; [lra|].
    pose proof huge_large. apply overflow_Finite. lra. }
  exists qs. split; [done|]. split.
  { eapply Forall_impl; [exact Hqs | intros q Hq'; simpl in Hq'; lra]. }
  rewrite unit_roundoff_eq in *.
  assert (Rabs (ssum qs - 1) <= 1e-8) as Hexact by (apply Rabs_le; lra).
  split; [apply Rabs_bound in Hexact; apply Rabs_le; lra|].
  destruct (ssum_Finite qs) as (s' & Hs' & _ & Herr'); [|done|].
  { unfold qs. rewrite length_map. lia. }
  exists s'. rewrite Hsoft. split; [done|].
  apply Rabs_bound in Hexact, Herr'.
  assert (length qs = length ys) as Hlq by (unfold qs; apply length_map).
  rewrite Hlq in Herr'. fold K in Herr'.
  set (Q := ssum qs) in *.
  assert (0 <= K * Q <= 1000000 * Q) as P4.
  { split; [apply Rmult_le_pos; lra|]. apply Rmult_le_compat_r; lra. }
  rewrite unit_roundoff_eq in Herr'.
  apply Rabs_le. lra.
Qed.
End Float64Facts.

(** ** float64: a forward pass that overflows *)

Section Trace.
Context {fa : float_arith}.
Hypothesis Hfa : ieee fa.
Local Open Scope R_scope.

Lemma huge_eq : huge = 4 * 2 ^ 1022.
Proof.
  unfold huge. change 1024%nat with (2 + 1022)%nat. rewrite pow_add. simpl. lra.
Qed.

Lemma fmul_overflows : fmul (Finite (2 ^ 1000)) (Finite (2 ^ 1000)) = PInf.
Proof.
  unfold fmul. apply overflow_PInf.
  assert (2 * huge <= 2 ^ 1000 * 2 ^ 1000) as HX.
  { rewrite <- pow_add. unfold huge. change (2 * 2 ^ 1024) with (2 ^ 1025).
    apply pow2_le. lia. }
  pose proof (rnd_near Hfa (2 ^ 1000 * 2 ^ 1000)) as Hr.
  pose proof huge_large. pose proof tiny_bounds. rewrite unit_roundoff_eq in *.
  lra.
Qed.

Lemma fmul_zero_r (x : R) : fmul (Finite x) (Finite 0) = Finite 0.
Proof. unfold fmul. by rewrite Rmult_0_r, (rnd_zero Hfa), overflow_zero. Qed.

Lemma fmul_zero_l (y : R) : fmul (Finite 0) (Finite y) = Finite 0.
Proof. unfold fmul. by rewrite Rmult_0_l, (rnd_zero Hfa), overflow_zero. Qed.

Lemma fadd_zero_zero : fadd (Finite 0) (Finite 0) = Finite 0.
Proof. unfold fadd. by rewrite Rplus_0_r, (rnd_zero Hfa), overflow_zero. Qed.

Lemma fadd_PInf_Finite (x : R) : fadd PInf (Finite x) = PInf.
Proof. done. Qed.

Lemma fadd_NaN_Finite (x : R) : fadd NaN (Finite x) = NaN.
Proof. done. Qed.

(** The sum of two products that are finite overflows. *)
Lemma dot_overflows :
  fadd (fmul (Finite (- (3 * 2 ^ 1022))) (Finite 1))
    (fadd (fmul (Finite (- (3 * 2 ^ 1022))) (Finite 1)) (Finite 0))
  = NInf.
Proof.
  pose proof huge_eq as Hh. pose proof huge_large as Hl. pose proof tiny_bounds as Ht.
  set (P := 2 ^ 1022) in *.
  assert (fmul (Finite (- (3 * P))) (Finite 1)
          = Finite (rnd (- (3 * P))) /\
          - (3.1 * P) <= rnd (- (3 * P)) <= - (2.9 * P)) as [-> Hw].
  { unfold fmul. rewrite Rmult_1_r.
    pose proof (rnd_error Hfa (- (3 * P))) as He. apply Rabs_bound in He.
    assert (Rabs (- (3 * P)) <= 3 * P) as Ha by (apply Rabs_le; lra).
    rewrite unit_roundoff_eq in *.
    split; [apply overflow_Finite; lra | lra]. }
  set (w := rnd (- (3 * P))) in *.
  assert (fadd (Finite w) (Finite 0) = Finite (rnd (w + 0)) /\
          - (3.2 * P) <= rnd (w + 0) <= - (2.8 * P)) as [-> Hw'].
  { unfold fadd.
    pose proof (rnd_error Hfa (w + 0)) as He. apply Rabs_bound in He.
    assert (Rabs (w + 0) <= 3.1 * P) as Ha by (apply Rabs_le; lra).
    rewrite unit_roundoff_eq in *.
    split; [apply overflow_Finite; lra | lra]. }
  set (w' := rnd (w + 0)) in *.
  unfold fadd. apply overflow_NInf.
  pose proof (rnd_error Hfa (w + w')) as He. apply Rabs_bound in He.
  assert (Rabs (w + w') <= 6.3 * P) as Ha by (apply Rabs_le; lra).
  rewrite unit_roundoff_eq in *. lra.
Qed.

Lemma fadd_one_zero : fadd (Finite 1) (Finite 0) = Finite 1.
Proof.
  unfold fadd. rewrite Rplus_0_r, (rnd_one Hfa). pose proof huge_large.
  apply overflow_Finite. lra.
Qed.

Lemma fdiv_one_one : fdiv (Finite 1) (Finite 1) = Finite 1.
Proof.
  unfold fdiv. destruct (Req_dec_T 1 0) as [H1 | _]; [lra|].
  replace (1 / 1) with 1 by lra. rewrite (rnd_one Hfa). pose proof huge_large.
  apply overflow_Finite. lra.
Qed.

(** The first input overflows both hidden units to +inf, whose [tanh] is
    1; in the second step the first unit adds the +inf of the input to
    the -inf of the recurrent sum. *)
Lemma overflow_hidden :
  hidden_from Overflow.U Overflow.W Overflow.b (replicate 2 szero)
    [[Finite (2 ^ 1000)]; [Finite (2 ^ 1000)]]
  = [[Finite 1; Finite 1]; [NaN; Finite 1]].
Proof.
  unfold hidden_from, cell, mat_vec, vadd, dotp, ssum, vec_of, column.
  cbn -[fadd fmul np_tanh pow Rmult Rplus Ropp IZR].
  rewrite fmul_overflows, !fmul_zero_r, ?fmul_zero_l, !fadd_zero_zero.
  rewrite !fadd_PInf_Finite, (tanh_of_pinf Hfa), dot_overflows.
  rewrite !fmul_zero_l, !fadd_zero_zero, !fadd_PInf_Finite.
  change (fadd PInf NInf) with NaN.
  by rewrite fadd_NaN_Finite, (tanh_of_nan Hfa), (tanh_of_pinf Hfa).
Qed.

Lemma overflow_outputs :
  outputs_of 2 Overflow.U Overflow.W Overflow.V Overflow.b Overflow.c
    [[Finite (2 ^ 1000)]; [Finite (2 ^ 1000)]]
  = [[Finite 1]; [NaN]].
Proof.
  unfold outputs_of. rewrite overflow_hidden.
  unfold readout, mat_vec, vadd, dotp, ssum, vec_of, column.
  cbn -[fadd fmul fsub fdiv fmax np_exp softmax_vec pow Rmult Rplus Ropp IZR].
  rewrite !fmul_zero_l, !fadd_zero_zero.
  change (fmul (Finite 0) NaN) with NaN. change (fadd NaN ?x) with NaN.
  rewrite ?fadd_NaN_Finite, (softmax_vec_nan_logits Hfa [NaN]) by done.
  unfold softmax_vec, max_entry, ssum.
  cbn -[fadd fmul fsub fdiv fmax np_exp pow Rmult Rplus Ropp IZR].
  by rewrite (exp_shift_max Hfa), fadd_one_zero, fdiv_one_one.
Qed.

(** What [forward] returns on the overflowing network, for every rounding
    and every library. *)
Lemma forward_overflow :
  forward 2 Overflow.inputs Overflow.U Overflow.W Overflow.V Overflow.b Overflow.c
  = Ok ([col [Finite 1]; col [NaN]],
        [col [Finite 0; Finite 0]; col [Finite 1; Finite 1]; col [NaN; Finite 1]]).
Proof.
  unfold Overflow.inputs.
  rewrite (forward_run 1 2 1 Overflow.U Overflow.W Overflow.V Overflow.b Overflow.c)
    with (xs := [[Finite (2 ^ 1000)]; [Finite (2 ^ 1000)]]); [|concrete..].
  unfold trajectory. by rewrite overflow_outputs, overflow_hidden.
Qed.

End Trace.

(** The arithmetic without rounding error meets [ieee]. *)
Lemma exact_arith_ieee : ieee exact_arith.
Proof.
  pose proof huge_large as Hh. pose proof unit_roundoff_bounds as Hu.
  pose proof tiny_bounds as Ht.
  constructor; simpl; try done.
  - intros x. rewrite Rminus_diag, Rabs_R0.
    pose proof (Rabs_pos x).
    assert (0 <= unit_roundoff * Rabs x)%R by (apply Rmult_le_pos; lra). lra.
  - rewrite exp_0. apply overflow_Finite. lra.
  - intros x Hx. exists (exp x).
    assert (0 < exp x <= 1)%R as He.
    { split; [apply exp_pos|]. destruct (Req_dec_T x 0) as [-> | Hne].
      - rewrite exp_0. lra.
      - rewrite <- exp_0. left. apply exp_increasing. lra. }
    split; [apply overflow_Finite; lra | lra].
  - intros x. exists (tanh x). split; [done | apply tanh_bounded].
Qed.


(** C10 (as the code behaves).  In float64 arithmetic, whatever the input
    sequence and the parameters, every entry of every hidden state of the
    trajectory [forward] returns is NaN or a finite number between -1 and
    1. *)
Theorem hidden_states_bounded {fa : float_arith} (hidden_size : nat)
    (inputs : list (ndarray float64)) (U W V b c : ndarray float64)
    (outputs hidden_states : list (ndarray float64)) :
  ieee fa ->
  forward hidden_size inputs U W V b c = Ok (outputs, hidden_states) ->
  Forall (fun s =>
            Forall (fun x => x = NaN \/
                             exists r : R, x = Finite r /\ (-1 <= r <= 1)%R)
              (entries s)) hidden_states.
Proof.
  intros Hfa.
  apply (forward_Forall
           (fun x => x = NaN \/ exists r : R, x = Finite r /\ (-1 <= r <= 1)%R)).
  - right. exists 0%R. split; [done | lra].
  - intros [x| | |]; change (@stanh float64 _) with np_tanh.
    + destruct (tanh_of_finite Hfa x) as (y & -> & Hy). right. eauto.
    + rewrite (tanh_of_pinf Hfa). right. exists 1%R. split; [done | lra].
    + rewrite (tanh_of_ninf Hfa). right. exists (-1)%R. split; [done | lra].
    + rewrite (tanh_of_nan Hfa). by left.
Qed.


(** C10 fails on the code: on the same network the first hidden unit of
    the second step is NaN, which is no number between -1 and 1. *)
Lemma hidden_state_not_bounded :
  forward (H := float64_scalar (fa := exact_arith)) 2 Overflow.inputs
    Overflow.U Overflow.W Overflow.V Overflow.b Overflow.c
  = Ok ([col [Finite 1]; col [NaN]],
        [col [Finite 0; Finite 0]; col [Finite 1; Finite 1]; col [NaN; Finite 1]]) /\
  ~ Forall (fun s : ndarray float64 =>
              Forall (fun x => exists r : R, x = Finite r /\ (-1 <= r <= 1)%R)
                (entries s))
      [col [Finite 0; Finite 0]; col [Finite 1; Finite 1]; col [NaN; Finite 1]].
Proof.
  split; [apply (forward_overflow exact_arith_ieee)|].
  intros Hall. apply Forall_cons in Hall as [_ Hall].
  apply Forall_cons in Hall as [_ Hall].
  apply Forall_cons in Hall as [Hs _].
  apply Forall_cons in Hs as [(r & Hr & _) _]. discriminate Hr.
Qed.


Lemma hidden_states_bounded_witness :
  Forall (fun s : ndarray float64 =>
            Forall (fun x => x = NaN \/
                             exists r : R, x = Finite r /\ (-1 <= r <= 1)%R)
              (entries s))
    [col [Finite 0; Finite 0]; col [Finite 1; Finite 1]; col [NaN; Finite 1]].
Proof.
  exact (hidden_states_bounded (fa := exact_arith) 2 Overflow.inputs
           Overflow.U Overflow.W Overflow.V Overflow.b Overflow.c _ _
           exact_arith_ieee (forward_overflow exact_arith_ieee)).
Defined.
